(** * Search orchestration of NodeBB ([src/search.ts])

    A shallow embedding of the search pipeline: scope resolution, backend
    dispatch, merge and authorisation, the conditional hydrate/filter/sort
    stage and pagination, followed by the properties of that pipeline.

    Conventions of the embedding.
    - The numbers held by the data (ids, counts, time stamps) are integers
      ([Z]); for [parseInt] and the comparisons of the filters [NaN] is the
      [None] of an [option Z]. The number a value is coerced to by a
      subtraction or a comparison is a double ([JsNum]).
    - Strings are Rocq strings: the bytes of the text in UTF-8.
    - [await] is sequencing.  Every call to a collaborator that lives
      outside [search.ts] (stores, index backends, privileges, hooks) is an
      entry of an explicit call trace, and may throw.
    - [Promise.all] starts every branch, so the calls of all branches are in
      the trace even when one of them rejects; branches are traced left to
      right. *)

From Stdlib Require Import ZArith QArith String Ascii List Lia.
From Stdlib Require Import Sorting.Sorted Sorting.Permutation.
From stdpp Require Import base decidable option list strings pretty gmap sorting.

Local Open Scope string_scope.
Local Open Scope Z_scope.
Local Open Scope list_scope.

(* ===================================================================== *)
(** * JavaScript primitives used by [search.ts] *)
(* ===================================================================== *)

Module Js.

(** ** Values *)

(** The values that reach a dynamic property read ([post[field]]), a
    truthiness test, a coercion or a template literal. [VNum] is a number
    with an integer value, [VArr] an array of strings (the tags of a
    topic), and [VObj] stands for a plain object whose contents the code
    does not look at. *)
Inductive JsVal :=
| VUndef
| VNum (n : Z)
| VStr (s : string)
| VArr (l : list string)
| VObj.

#[global] Instance JsVal_eq_dec : EqDecision JsVal.
Proof. solve_decision. Defined.

(** An entry of an id array: a number, or [null]/[undefined]. *)
Definition jsid := option Z.

(** A plain object read by property name. *)
Definition JsObj := list (string * JsVal).

Fixpoint obj_get (f : string) (o : JsObj) : JsVal :=
  match o with
  | [] => VUndef
  | (k, v) :: o' => if String.eqb k f then v else obj_get f o'
  end.

(** ** Truthiness *)

Definition truthy (v : JsVal) : bool :=
  match v with
  | VUndef => false
  | VNum n => negb (n =? 0)
  | VStr s => negb (String.eqb s "")
  | VArr _ | VObj => true
  end.

Definition truthy_str (o : option string) : bool :=
  match o with Some s => negb (String.eqb s "") | None => false end.

Definition truthy_num (o : option Z) : bool :=
  match o with Some n => negb (n =? 0) | None => false end.

(** [Boolean] as the callback of [Array.prototype.filter] on an id array. *)
Definition Boolean (i : jsid) : Prop := truthy_num i = true.

#[global] Instance Boolean_dec i : Decision (Boolean i).
Proof. unfold Boolean. apply _. Defined.

(** [a || b] on an optional string or number. *)
Definition or_str (o : option string) (d : string) : string :=
  match o with Some s => if String.eqb s "" then d else s | None => d end.

Definition or_num (o : option Z) (d : Z) : Z :=
  match o with Some n => if n =? 0 then d else n | None => d end.

(** ** Strings *)

(** [String(v)] and template-literal interpolation. *)
Definition toString_num (n : Z) : string := pretty n.

Definition toString_id (i : jsid) (absent : string) : string :=
  match i with Some n => toString_num n | None => absent end.

Definition toString (v : JsVal) : string :=
  match v with
  | VUndef => "undefined"
  | VNum n => toString_num n
  | VStr s => s
  | VArr l => String.concat "," l
  | VObj => "[object Object]"
  end.

(** [s.startsWith(p)]. *)
Definition startsWith (p s : string) : bool := String.prefix p s.

Fixpoint drop_str (n : nat) (s : string) : string :=
  match n, s with
  | O, _ => s
  | S n', String _ s' => drop_str n' s'
  | S _, EmptyString => EmptyString
  end.

(** [s.includes(t)]: [t] occurs in [s] at some offset. *)
Fixpoint includes (t s : string) : bool :=
  String.prefix t s ||
  match s with
  | EmptyString => false
  | String _ s' => includes t s'
  end.

(** [s.split(c)] for a one-character separator. *)
Fixpoint split (c : ascii) (s : string) : list string :=
  match s with
  | EmptyString => [EmptyString]
  | String a s' =>
      if Ascii.eqb a c then EmptyString :: split c s'
      else match split c s' with
           | [] => [String a EmptyString]
           | w :: ws => String a w :: ws
           end
  end.

(** [s.replace(pat, '')] for a string pattern: the first occurrence of
    [pat] is removed. *)
Fixpoint replace_first_empty (pat s : string) : string :=
  if String.prefix pat s then drop_str (String.length pat) s
  else match s with
       | EmptyString => EmptyString
       | String a s' => String a (replace_first_empty pat s')
       end.

Definition is_digit (c : ascii) : bool :=
  (48 <=? nat_of_ascii c)%nat && (nat_of_ascii c <=? 57)%nat.

(** The longest run of decimal digits at the head of [s], and what follows. *)
Fixpoint span_digits (s : string) : string * string :=
  match s with
  | EmptyString => (EmptyString, EmptyString)
  | String a s' =>
      if is_digit a
      then let '(d, r) := span_digits s' in (String a d, r)
      else (EmptyString, s)
  end.

Fixpoint all_digits (s : string) : bool :=
  match s with
  | EmptyString => true
  | String a s' => is_digit a && all_digits s'
  end.

Definition digit_value (c : ascii) : Z := Z.of_nat (nat_of_ascii c) - 48.

Fixpoint digits_value (acc : Z) (s : string) : Z :=
  match s with
  | EmptyString => acc
  | String a s' => digits_value (10 * acc + digit_value a) s'
  end.

(** White space and line terminators, which [parseInt] and the coercion
    of a string to a number skip. In UTF-8 they take one byte (blank, tab,
    line feed, vertical tab, form feed, carriage return), *)
Definition is_space (c : ascii) : bool :=
  let n := nat_of_ascii c in
  (n =? 32)%nat || ((9 <=? n)%nat && (n <=? 13)%nat).

(** two bytes (U+00A0), *)
Definition is_space2 (a b : ascii) : bool :=
  (nat_of_ascii a =? 194)%nat && (nat_of_ascii b =? 160)%nat.

(** or three (U+1680, U+2000 to U+200A, U+2028, U+2029, U+202F, U+205F,
    U+3000 and U+FEFF). *)
Definition is_space3 (a b c : ascii) : bool :=
  let '(x, y, z) := (nat_of_ascii a, nat_of_ascii b, nat_of_ascii c) in
  ((x =? 225) && (y =? 154) && (z =? 128))%nat
  || ((x =? 226) && (y =? 128)
      && (((128 <=? z) && (z <=? 138)) || (z =? 168) || (z =? 169)
          || (z =? 175)))%nat
  || ((x =? 226) && (y =? 129) && (z =? 159))%nat
  || ((x =? 227) && (y =? 128) && (z =? 128))%nat
  || ((x =? 239) && (y =? 187) && (z =? 191))%nat.

Fixpoint skip_spaces (s : string) : string :=
  match s with
  | String a s1 =>
      if is_space a then skip_spaces s1
      else
        match s1 with
        | String b s2 =>
            if is_space2 a b then skip_spaces s2
            else
              match s2 with
              | String c s3 => if is_space3 a b c then skip_spaces s3 else s
              | EmptyString => s
              end
        | EmptyString => s
        end
  | EmptyString => EmptyString
  end.

(** [parseInt(s, 10)]: leading white space, an optional sign, then the
    longest digit prefix; [None] is [NaN]. *)
Definition parseInt (s : string) : option Z :=
  let s := skip_spaces s in
  let '(neg, body) :=
    match s with
    | String "-" r => (true, r)
    | String "+" r => (false, r)
    | _ => (false, s)
    end in
  let '(d, _) := span_digits body in
  match d with
  | EmptyString => None
  | _ => Some (if neg : bool then - digits_value 0 d else digits_value 0 d)
  end.

(** [parseInt] of an argument that may be absent ([parseInt(undefined)] is
    [NaN]). *)
Definition parseInt_opt (o : option string) : option Z :=
  match o with Some s => parseInt s | None => None end.

(** ** Coercion to a number

    The number of a subtraction or a comparison is a double: [NaN], an
    infinity, or a finite value, kept as the rational it is. [-0] is not
    told from [+0]: nothing here divides by a number or prints one. *)
Inductive JsNum :=
| Fin (q : Q)
| Inf (negative : bool)
| NaN.

Definition num_of_Z (n : Z) : JsNum := Fin (inject_Z n).

(** The [e] with [2^e <= n/d < 2^(e+1)], for positive [n] and [d]. *)
Definition binary_exponent (n d : Z) : Z :=
  let e := Z.log2 n - Z.log2 d in
  let below := if 0 <=? e then n <? d * 2 ^ e else n * 2 ^ (- e) <? d in
  if below then e - 1 else e.

(** The double nearest to [n/d] ([n >= 0], [d > 0]) with the given sign,
    ties to even: 53 significant bits, exponents from [-1022] (smaller
    values lose bits, then become zero) to [1023] (larger values are
    infinite). *)
Definition round_double (negative : bool) (n d : Z) : JsNum :=
  if n =? 0 then Fin 0
  else
    let k := Z.max (binary_exponent n d) (-1022) - 52 in
    let num := if 0 <=? k then n else n * 2 ^ (- k) in
    let den := if 0 <=? k then d * 2 ^ k else d in
    let qt := num / den in
    let r := num mod den in
    let m := if 2 * r <? den then qt
             else if den <? 2 * r then qt + 1
             else if Z.even qt then qt else qt + 1 in
    let m := if negative then - m else m in
    if 0 <=? k
    then if 2 ^ 1024 <=? Z.abs m * 2 ^ k then Inf negative
         else Fin (inject_Z (m * 2 ^ k))
    else Fin (Qred (m # Z.to_pos (2 ^ (- k)))).

Definition radix_digit (base : Z) (c : ascii) : option Z :=
  let n := Z.of_nat (nat_of_ascii c) in
  let v := if (48 <=? n) && (n <=? 57) then n - 48
           else if (97 <=? n) && (n <=? 102) then n - 87
           else if (65 <=? n) && (n <=? 70) then n - 55
           else 16 in
  if v <? base then Some v else None.

(** The value of the longest run of digits of [base] at the head of [s],
    whether there is a digit at all, and what follows. *)
Fixpoint span_radix (base acc : Z) (any : bool) (s : string)
  : Z * bool * string :=
  match s with
  | String c s' =>
      match radix_digit base c with
      | Some v => span_radix base (base * acc + v) true s'
      | None => (acc, any, s)
      end
  | EmptyString => (acc, any, s)
  end.

(** What follows [0x], [0o] or [0b]: digits, then white space only. *)
Definition radix_literal (base : Z) (s : string) : JsNum :=
  let '(v, any, rest) := span_radix base 0 false s in
  match any, skip_spaces rest with
  | true, EmptyString => round_double false v 1
  | _, _ => NaN
  end.

(** An optional exponent part: its value and what follows. An [e] without
    digits behind it spoils the literal. *)
Definition exponent_part (s : string) : option (Z * string) :=
  match s with
  | String c r =>
      if Ascii.eqb c "e" || Ascii.eqb c "E" then
        let '(neg, body) :=
          match r with
          | String "-" r' => (true, r')
          | String "+" r' => (false, r')
          | _ => (false, r)
          end in
        let '(d, rest) := span_digits body in
        match d with
        | EmptyString => None
        | _ => Some (if neg : bool then - digits_value 0 d
                     else digits_value 0 d, rest)
        end
      else Some (0, s)
  | EmptyString => Some (0, s)
  end.

(** A decimal literal behind its sign: [Infinity], or digits with an
    optional point and an optional exponent, at least one digit before or
    behind the point; then white space only. *)
Definition decimal_literal (negative : bool) (s : string) : JsNum :=
  if String.prefix "Infinity" s then
    match skip_spaces (substring 8 (String.length s - 8) s) with
    | EmptyString => Inf negative
    | _ => NaN
    end
  else
    let '(whole, r1) := span_digits s in
    let '(frac, r2) :=
      match r1 with
      | String "." r => span_digits r
      | _ => (EmptyString, r1)
      end in
    match whole +:+ frac with
    | EmptyString => NaN
    | digits =>
        match exponent_part r2 with
        | Some (e, rest) =>
            match skip_spaces rest with
            | EmptyString =>
                let e := e - Z.of_nat (String.length frac) in
                if 0 <=? e
                then round_double negative (digits_value 0 digits * 10 ^ e) 1
                else round_double negative (digits_value 0 digits) (10 ^ (- e))
            | _ => NaN
            end
        | None => NaN
        end
    end.

(** [Number(s)], the coercion of a string operand: white space is trimmed
    on both sides; the empty string is [0]; a decimal literal (sign,
    point and exponent optional), [Infinity] with an optional sign, and an
    unsigned hexadecimal, octal or binary literal have their value,
    rounded to a double; anything else is [NaN]. *)
Definition string_toNumber (s : string) : JsNum :=
  match skip_spaces s with
  | EmptyString => Fin 0
  | String "0" (String c r) as t =>
      if Ascii.eqb c "x" || Ascii.eqb c "X" then radix_literal 16 r
      else if Ascii.eqb c "o" || Ascii.eqb c "O" then radix_literal 8 r
      else if Ascii.eqb c "b" || Ascii.eqb c "B" then radix_literal 2 r
      else decimal_literal false t
  | String "-" r => decimal_literal true r
  | String "+" r => decimal_literal false r
  | t => decimal_literal false t
  end.

(** An operand of [-], [<] or [>] is first made a primitive: an array is
    its elements joined by commas, a plain object is [[object Object]]. *)
Definition toPrimitive (v : JsVal) : JsVal :=
  match v with
  | VArr _ | VObj => VStr (toString v)
  | _ => v
  end.

Definition toNumber (v : JsVal) : JsNum :=
  match toPrimitive v with
  | VNum n => num_of_Z n
  | VStr s => string_toNumber s
  | _ => NaN
  end.

(** [a - b]. The difference of two finite numbers is kept exact; the
    double the engine rounds it to has the same sign, which is all a sort
    reads of it. *)
Definition js_sub (a b : JsVal) : JsNum :=
  match toNumber a, toNumber b with
  | Fin x, Fin y => Fin (x - y)
  | Fin _, Inf s => Inf (negb s)
  | Inf s, Fin _ => Inf s
  | Inf s, Inf s' => if Bool.eqb s s' then NaN else Inf s
  | _, _ => NaN
  end.

(** [0 < x]; false for [NaN]. *)
Definition positive (x : JsNum) : bool :=
  match x with
  | Fin q => 0 <? Qnum q
  | Inf s => negb s
  | NaN => false
  end.

(** [x < y] on numbers; false when one of them is [NaN]. *)
Definition num_ltb (x y : JsNum) : bool :=
  match x, y with
  | Fin p, Fin q => Qnum p * QDen q <? Qnum q * QDen p
  | Fin _, Inf s => negb s
  | Inf s, Fin _ => s
  | Inf s, Inf s' => s && negb s'
  | _, _ => false
  end.

(** Order on strings, byte by byte: the order of the code points. (The
    language compares UTF-16 units, which is the same order except between
    a character beyond U+FFFF and one from U+E000 to U+FFFF.) *)
Fixpoint string_ltb (a b : string) : bool :=
  match a, b with
  | _, EmptyString => false
  | EmptyString, String _ _ => true
  | String x a', String y b' =>
      if (nat_of_ascii x <? nat_of_ascii y)%nat then true
      else if (nat_of_ascii y <? nat_of_ascii x)%nat then false
      else string_ltb a' b'
  end.

(** [a < b]: two operands that are strings once made primitive compare as
    strings, anything else numerically. *)
Definition js_lt (a b : JsVal) : bool :=
  match toPrimitive a, toPrimitive b with
  | VStr x, VStr y => string_ltb x y
  | x, y => num_ltb (toNumber x) (toNumber y)
  end.

(** Comparisons of numbers one of which may be [NaN]. *)
Definition num_geb (a b : option Z) : bool :=
  match a, b with Some x, Some y => y <=? x | _, _ => false end.

Definition num_leb (a b : option Z) : bool :=
  match a, b with Some x, Some y => x <=? y | _, _ => false end.

End Js.

(* ===================================================================== *)
(** * Arrays, dictionaries and exceptions *)
(* ===================================================================== *)

Module JsArray.
Import Js.

(** The outcome of an expression that may throw. *)
Inductive result (A : Type) :=
| Ok (a : A)
| Throw (e : string).
Arguments Ok {A} a.
Arguments Throw {A} e.

Definition rbind {A B} (r : result A) (f : A -> result B) : result B :=
  match r with Ok a => f a | Throw e => Throw e end.

Definition TypeError : string := "TypeError".

Section Arrays.
Context {A : Type}.

(** [l.slice(start, stop)]: negative bounds count from the end, both
    bounds are clamped to the array. *)
Definition slice (start stop : Z) (l : list A) : list A :=
  let len := Z.of_nat (length l) in
  let k := if start <? 0 then Z.max (len + start) 0 else Z.min start len in
  let final := if stop <? 0 then Z.max (len + stop) 0 else Z.min stop len in
  take (Z.to_nat (final - k)) (drop (Z.to_nat k) l).

(** [l.filter(f)] with a callback that may throw: the first exception
    aborts the whole call. *)
Fixpoint filter_throwing (f : A -> result bool) (l : list A) : result (list A) :=
  match l with
  | [] => Ok []
  | x :: l' =>
      rbind (f x) (fun keep =>
      rbind (filter_throwing f l') (fun r =>
      Ok (if keep then x :: r else r)))
  end.

(** The comparator asks for its first argument to go after the second:
    its result is positive. A result of [NaN] counts as [+0]. *)
Definition after (c : JsNum) : bool := positive c.

(** [l.sort(cmp)]. The language requires a stable sort; this is the stable
    insertion sort. An exception of the comparator aborts the sort. *)
Fixpoint sort_insert (cmp : A -> A -> result JsNum) (x : A) (l : list A)
  : result (list A) :=
  match l with
  | [] => Ok [x]
  | y :: l' =>
      rbind (cmp x y) (fun c =>
      if after c
      then rbind (sort_insert cmp x l') (fun r => Ok (y :: r))
      else Ok (x :: y :: l'))
  end.

Fixpoint sort (cmp : A -> A -> result JsNum) (l : list A) : result (list A) :=
  match l with
  | [] => Ok []
  | x :: l' => rbind (sort cmp l') (sort_insert cmp x)
  end.

(** [_.uniq(l)]: the first occurrence of every value, in order. *)
Fixpoint uniq_from `{EqDecision A} (seen l : list A) : list A :=
  match l with
  | [] => []
  | x :: l' =>
      if decide (x ∈ seen) then uniq_from seen l'
      else x :: uniq_from (x :: seen) l'
  end.

Definition uniq `{EqDecision A} (l : list A) : list A := uniq_from [] l.

(** [_.zipObject(keys, values)]: property keys are strings, and a later
    duplicate key overwrites an earlier one.  A key that has no value is
    bound to [undefined]; a read cannot tell that from an absent key, so the
    key is removed. *)
Fixpoint zipObject_from (m : gmap string A) (keys : list string)
    (values : list A) : gmap string A :=
  match keys with
  | [] => m
  | k :: keys' =>
      match values with
      | v :: values' => zipObject_from (<[k := v]> m) keys' values'
      | [] => zipObject_from (delete k m) keys' []
      end
  end.

Definition zipObject (keys : list string) (values : list A) : gmap string A :=
  zipObject_from ∅ keys values.

End Arrays.

End JsArray.

(* ===================================================================== *)
(** * The search module *)
(* ===================================================================== *)

Module Search.
Import Js JsArray.

(** ** Data model *)

(** A request field that holds one string or an array of strings
    ([postedBy], [hasTags]). *)
Inductive StrOrArr :=
| One (s : string)
| Many (l : list string).

Definition truthy_soa (o : option StrOrArr) : bool :=
  match o with
  | None => false
  | Some (One s) => negb (String.eqb s "")
  | Some (Many _) => true
  end.

(** [ISearchData]: the query, as the request handler builds it. Every
    field may be absent. [categories] is [None] when it is not an array. *)
Record ISearchData := {
  query : option string;
  searchIn : option string;
  matchWords : option string;
  categories : option (list JsVal);
  searchChildren : bool;
  postedBy : option StrOrArr;
  sortBy : option string;
  sortDirection : option string;
  replies : option string;
  repliesFilter : option string;
  timeRange : option string;
  timeFilter : option string;
  hasTags : option StrOrArr;
  page : option Z;
  itemsPerPage : option Z;
  returnIds : bool;
  uid : option Z;
}.

(** The three assignments the module makes to [data]. *)
Definition set_sortBy (v : string) (d : ISearchData) : ISearchData :=
  {| query := query d; searchIn := searchIn d; matchWords := matchWords d;
     categories := categories d; searchChildren := searchChildren d;
     postedBy := postedBy d; sortBy := Some v;
     sortDirection := sortDirection d; replies := replies d;
     repliesFilter := repliesFilter d; timeRange := timeRange d;
     timeFilter := timeFilter d; hasTags := hasTags d; page := page d;
     itemsPerPage := itemsPerPage d; returnIds := returnIds d; uid := uid d |}.

Definition set_sortDirection (v : string) (d : ISearchData) : ISearchData :=
  {| query := query d; searchIn := searchIn d; matchWords := matchWords d;
     categories := categories d; searchChildren := searchChildren d;
     postedBy := postedBy d; sortBy := sortBy d;
     sortDirection := Some v; replies := replies d;
     repliesFilter := repliesFilter d; timeRange := timeRange d;
     timeFilter := timeFilter d; hasTags := hasTags d; page := page d;
     itemsPerPage := itemsPerPage d; returnIds := returnIds d; uid := uid d |}.

Definition set_uid (v : Z) (d : ISearchData) : ISearchData :=
  {| query := query d; searchIn := searchIn d; matchWords := matchWords d;
     categories := categories d; searchChildren := searchChildren d;
     postedBy := postedBy d; sortBy := sortBy d;
     sortDirection := sortDirection d; replies := replies d;
     repliesFilter := repliesFilter d; timeRange := timeRange d;
     timeFilter := timeFilter d; hasTags := hasTags d; page := page d;
     itemsPerPage := itemsPerPage d; returnIds := returnIds d; uid := Some v |}.

(** [ITag]: a tag as the topic store returns it. *)
Record ITag := { tag_value : string }.

(** A topic as [topics.getTopicsData] returns it; [td_extra] holds the
    fields the module never names. *)
Record ITopicData := {
  td_tid : Z;
  td_cid : Z;
  td_deleted : Z;
  td_postcount : Z;
  td_tags : option (list ITag);
  td_extra : JsObj;
}.

(** [ITopic]: the same object after [getTopics] has flattened its tags and
    attached the category snapshot. *)
Record ITopic := {
  t_tid : Z;
  t_cid : Z;
  t_deleted : Z;
  t_postcount : Z;
  t_tags : option (list string);
  t_category : option JsObj;
  t_extra : JsObj;
}.

(** The fields [getMatchedPosts] asks the post store for; [extra] holds
    whatever else the store attaches. *)
Record IPostFields := {
  pid : Z;
  post_uid : Z;
  tid : Z;
  timestamp : Z;
  deleted : Z;
  upvotes : Z;
  downvotes : Z;
  extra : JsObj;
}.

(** [IPost]: a hydrated post with its optional sub-records. *)
Record IPost := {
  fields :> IPostFields;
  topic : option ITopic;
  category : option JsObj;
  user : option JsObj;
}.

Definition opt_obj {X} (o : option X) : JsVal :=
  match o with Some _ => VObj | None => VUndef end.

(** [topic[f]]. *)
Definition topic_get (f : string) (t : ITopic) : JsVal :=
  if String.eqb f "tid" then VNum (t_tid t)
  else if String.eqb f "cid" then VNum (t_cid t)
  else if String.eqb f "deleted" then VNum (t_deleted t)
  else if String.eqb f "postcount" then VNum (t_postcount t)
  else if String.eqb f "tags" then
    match t_tags t with Some tags => VArr tags | None => VUndef end
  else if String.eqb f "category" then opt_obj (t_category t)
  else obj_get f (t_extra t).

(** [post[f]]. *)
Definition post_get (f : string) (p : IPost) : JsVal :=
  if String.eqb f "pid" then VNum (pid p)
  else if String.eqb f "uid" then VNum (post_uid p)
  else if String.eqb f "tid" then VNum (tid p)
  else if String.eqb f "timestamp" then VNum (timestamp p)
  else if String.eqb f "deleted" then VNum (deleted p)
  else if String.eqb f "upvotes" then VNum (upvotes p)
  else if String.eqb f "downvotes" then VNum (downvotes p)
  else if String.eqb f "topic" then opt_obj (topic p)
  else if String.eqb f "category" then opt_obj (category p)
  else if String.eqb f "user" then opt_obj (user p)
  else obj_get f (extra p).

(** [post[f0][f1]]: reading a property of [undefined] throws; a primitive
    or an opaque object has no property the sort can use. *)
Definition post_get2 (f0 f1 : string) (p : IPost) : result JsVal :=
  if String.eqb f0 "topic" then
    match topic p with Some t => Ok (topic_get f1 t) | None => Throw TypeError end
  else if String.eqb f0 "category" then
    match category p with Some c => Ok (obj_get f1 c) | None => Throw TypeError end
  else if String.eqb f0 "user" then
    match user p with Some u => Ok (obj_get f1 u) | None => Throw TypeError end
  else
    match post_get f0 p with
    | VUndef => Throw TypeError
    | _ => Ok VUndef
    end.

(** [post?.[f0]?.[f1]]: optional chaining yields [undefined] instead. *)
Definition post_get2_opt (f0 f1 : string) (p : IPost) : JsVal :=
  match post_get2 f0 f1 p with Ok v => v | Throw _ => VUndef end.

(** ** Hook payloads and results *)

(** Payload of [filter:search.query], the hook behind which the text index
    lives. *)
Record QueryPayload := {
  index : string;
  content : option string;
  qp_matchWords : string;
  cid : list JsVal;
  qp_uid : list jsid;
  searchData : ISearchData;
  ids : list jsid;
}.

(** What the index hook hands back: a plain id array, or an object with an
    [ids] property. *)
Inductive QueryResult :=
| QArray (a : list jsid)
| QObject (p : QueryPayload).

Record SearchInPayload := {
  si_data : ISearchData;
  si_ext : JsObj;
}.

Record InContentPayload := {
  ic_pids : list jsid;
  ic_data : ISearchData;
  ic_ext : JsObj;
}.

Record FilterAndSortPayload := {
  fs_pids : list jsid;
  fs_posts : list (option IPost);
  fs_data : ISearchData;
}.

(** [returnData] of [searchInContent]. *)
Record ReturnData := {
  posts : list JsObj;
  matchCount : Z;
  pageCount : Z;
}.

Record ContentGetResultPayload := {
  cg_result : ReturnData;
  cg_data : ISearchData;
}.

(** What [searchInContent] returns: the two id lists of raw-id mode, or
    [returnData] with the fields an extension left in [metadata]. *)
Inductive ContentResult :=
| Ids (pids tids : list jsid)
| Paged (r : ReturnData) (ext : JsObj).

(** What [search.search] returns, before [time] is attached. *)
Inductive SearchOutput :=
| OutContent (r : ContentResult)
| OutDomain (o : JsObj)
| OutHook (p : SearchInPayload).

Record SearchResult := {
  body : SearchOutput;
  time : string;
}.

(** ** Collaborators *)

(** Modelled from the spec: the plugin registry ([plugins.hooks]) is not
    part of [search.ts].  The spec describes every extension point as an
    ordered middleware list, each listener receiving and returning the
    accumulated state; a listener may throw.  Listeners answer through the
    value they return. *)
Record Plugins := {
  on_searchIn : list (SearchInPayload -> result SearchInPayload);
  on_query : list (QueryResult -> result QueryResult);
  on_inContent : list (InContentPayload -> result InContentPayload);
  on_filterAndSort : list (FilterAndSortPayload -> result FilterAndSortPayload);
  on_contentGetResult :
    list (ContentGetResultPayload -> result ContentGetResultPayload);
}.

Definition nonempty {X} (l : list X) : bool :=
  match l with [] => false | _ => true end.

(** Modelled from the spec: [plugins.hooks.hasListeners(hook)], the cheap
    predicate "some listener is registered". *)
Definition hasListeners (p : Plugins) (hook : string) : bool :=
  if String.eqb hook "filter:search.searchIn" then nonempty (on_searchIn p)
  else if String.eqb hook "filter:search.query" then nonempty (on_query p)
  else if String.eqb hook "filter:search.inContent" then nonempty (on_inContent p)
  else if String.eqb hook "filter:search.filterAndSort"
       then nonempty (on_filterAndSort p)
  else if String.eqb hook "filter:search.contentGetResult"
       then nonempty (on_contentGetResult p)
  else false.

(** Modelled from the spec: running a middleware list over a payload. With
    no listener the payload comes back as it went in. *)
Fixpoint run_listeners {P} (ls : list (P -> result P)) (p : P) : result P :=
  match ls with
  | [] => Ok p
  | l :: ls' => rbind (l p) (run_listeners ls')
  end.

(** The capabilities [search.ts] imports. Each may throw. *)
Record Env := {
  plugins : Plugins;
  user_search : ISearchData -> result JsObj;
  categories_search : ISearchData -> result JsObj;
  topics_searchAndLoadTags : ISearchData -> result JsObj;
  topics_search : string -> string -> result (list jsid);
  topics_getMainPids : list jsid -> result (list jsid);
  topics_getTopicsData : list Z -> result (list (option ITopicData));
  privileges_posts_filter :
    string -> list jsid -> option Z -> result (list jsid);
  privileges_categories_filterCids :
    string -> list JsVal -> option Z -> result (list JsVal);
  posts_getPostsFields :
    list jsid -> list string -> result (list (option IPostFields));
  posts_getPostSummaryByPids : list jsid -> option Z -> result (list JsObj);
  posts_filterPidsByCid : list jsid -> list JsVal -> result (list jsid);
  posts_filterPidsByUid : list jsid -> list jsid -> result (list jsid);
  user_getUsersFields : list Z -> list string -> result (list (option JsObj));
  user_getWatchedCategories : option Z -> result (list JsVal);
  user_getUidsByUsernames : list string -> result (list jsid);
  categories_getCidsByPrivilege :
    string -> option Z -> string -> result (list JsVal);
  categories_getChildrenCids : JsVal -> result (list JsVal);
  db_getObjectsFields :
    list string -> list string -> result (list (option JsObj));
  (** the batches [batch.processSortedSet] delivers for a key and a batch
      size *)
  batch_processSortedSet : string -> Z -> result (list (list jsid));
  utils_isNumber : JsVal -> bool;
  Date_now : Z;
  (** [(process.elapsedTimeSince(start) / 1000).toFixed(2)] *)
  elapsed : string;
}.

(** ** Call trace *)

Inductive Event :=
| EFire (hook : string)
| EIndexQuery (idx : string) (text : option string) (mode : string)
| ETopicSearch (tid term : string)
| EBookmarks (key : string) (size : Z)
| EDomainSearch (domain : string)
| EGetMainPids (tids : list jsid)
| EPrivilegesFilter (privilege : string) (pids : list jsid) (uid : option Z)
| EGetPostsFields (pids : list jsid) (fields : list string)
| EGetTopicsData (tids : list Z)
| EGetUsersFields (uids : list Z) (fields : list string)
| EGetObjectsFields (keys fields : list string)
| EGetPostSummaryByPids (pids : list jsid) (uid : option Z)
| EFilterPidsByCid (pids : list jsid)
| EFilterPidsByUid (pids : list jsid)
| EScope (lookup : string).

(** A computation: the calls it made, and its value or exception. *)
Definition M (A : Type) : Type := list Event * result A.

Definition ret {A} (a : A) : M A := ([], Ok a).

Definition throw {A} (e : string) : M A := ([], Throw e).

Definition bind {A B} (m : M A) (f : A -> M B) : M B :=
  match m with
  | (t, Ok a) => let '(t', r) := f a in (t ++ t', r)
  | (t, Throw e) => (t, Throw e)
  end.

(** A call to a collaborator. *)
Definition call {A} (e : Event) (r : result A) : M A := ([e], r).

(** An expression of the module itself that may throw. *)
Definition lift {A} (r : result A) : M A := ([], r).

(** [Promise.all([m1, m2])]. *)
Definition all2 {A B} (m1 : M A) (m2 : M B) : M (A * B) :=
  let '(t1, r1) := m1 in
  let '(t2, r2) := m2 in
  (t1 ++ t2,
   match r1, r2 with
   | Ok a, Ok b => Ok (a, b)
   | Throw e, _ => Throw e
   | Ok _, Throw e => Throw e
   end).

(** [Promise.all(l.map(f))]. *)
Fixpoint all_map {A B} (f : A -> M B) (l : list A) : M (list B) :=
  match l with
  | [] => ret []
  | x :: l' =>
      let '(t, r) := all2 (f x) (all_map f l') in
      (t, match r with Ok (b, bs) => Ok (b :: bs) | Throw e => Throw e end)
  end.

(** [x ← m; k] sequences two computations. *)
#[global] Instance M_ret : MRet M := @ret.
#[global] Instance M_bind : MBind M := fun A B f m => bind m f.

(** [plugins.hooks.fire(hook, payload)]. *)
Definition fire {P} (hook : string) (ls : list (P -> result P)) (p : P) : M P :=
  call (EFire hook) (run_listeners ls p).

(** ** Hydration ([getCategories], [getTopics], [getUsers],
       [getMatchedPosts]) *)

(** [sortBy.split('.')[1]]; behind the [startsWith('category.')] guard the
    second part always exists. *)
Definition second_part (s : string) : string :=
  match split "." s with
  | _ :: f :: _ => f
  | _ => ""
  end.

(** Lines 241-252. [None] is the [null] the function returns when the sort
    path names no category field. *)
Definition getCategories (env : Env) (cids : list jsid) (data : ISearchData)
  : M (option (list (option JsObj))) :=
  match sortBy data with
  | None => throw TypeError
  | Some sb =>
      let categoryFields :=
        if startsWith "category." sb then [second_part sb] else [] in
      if negb (nonempty categoryFields) then mret None
      else
        let keys := map (fun cid => "category:" +:+ toString_id cid "null") cids in
        r ← call (EGetObjectsFields keys categoryFields)
                 (db_getObjectsFields env keys categoryFields);
        mret (Some r)
  end.

(** The loop body of [getTopics], lines 230-235. *)
Definition enrich_topic (categories : option (list (option JsObj)))
    (cidToCategory : gmap string (option JsObj)) (topic : ITopicData) : ITopic :=
  {| t_tid := td_tid topic;
     t_cid := td_cid topic;
     t_deleted := td_deleted topic;
     t_postcount := td_postcount topic;
     t_tags := (fun tags => map tag_value tags) <$> td_tags topic;
     t_category :=
       match categories, cidToCategory !! toString_num (td_cid topic) with
       | Some _, Some (Some c) => Some c
       | _, _ => None
       end;
     t_extra := td_extra topic |}.

(** Lines 223-239. *)
Definition getTopics (env : Env) (tids : list Z) (data : ISearchData)
  : M (list (option ITopic)) :=
  topicsData ← call (EGetTopicsData tids) (topics_getTopicsData env tids);
  let cids : list jsid := uniq (map (fun topic => td_cid <$> topic) topicsData) in
  categories ← getCategories env cids data;
  let cidToCategory :=
    zipObject (map (fun cid => toString_id cid "null") cids)
              (default [] categories) in
  mret (map (fun topic => enrich_topic categories cidToCategory <$> topic)
            topicsData).

(** Lines 216-221. *)
Definition getUsers (env : Env) (uids : list Z) (data : ISearchData)
  : M (list (option JsObj)) :=
  match sortBy data with
  | None => throw TypeError
  | Some sb =>
      if startsWith "user" sb
      then call (EGetUsersFields uids ["username"])
                (user_getUsersFields env uids ["username"])
      else mret []
  end.

Definition postFields : list string :=
  ["pid"; "uid"; "tid"; "timestamp"; "deleted"; "upvotes"; "downvotes"].

(** [post && !post.deleted], line 188. *)
Definition live_post (post : option IPostFields) : option IPostFields :=
  match post with
  | Some p => if deleted p =? 0 then Some p else None
  | None => None
  end.

(** The loop body of [getMatchedPosts], lines 200-211. *)
Definition enrich_post (tidToTopic : gmap string (option ITopic))
    (uidToUser : gmap string (option JsObj)) (post : IPostFields) : IPost :=
  let topic :=
    match tidToTopic !! toString_num (tid post) with
    | Some (Some t) => Some t
    | _ => None
    end in
  {| fields := post;
     topic := topic;
     category := match topic with Some t => t_category t | None => None end;
     user :=
       match uidToUser !! toString_num (post_uid post) with
       | Some (Some u) => Some u
       | _ => None
       end |}.

(** [post && post.topic && !post.topic.deleted], line 213. *)
Definition has_live_topic (post : IPost) : bool :=
  match topic post with
  | Some t => t_deleted t =? 0
  | None => false
  end.

(** Lines 184-214. *)
Definition getMatchedPosts (env : Env) (pids : list jsid) (data : ISearchData)
  : M (list IPost) :=
  postsData ← call (EGetPostsFields pids postFields)
                   (posts_getPostsFields env pids postFields);
  let postsData := omap live_post postsData in
  let uids := uniq (map post_uid postsData) in
  let tids := uniq (map tid postsData) in
  '(users, topics) ← all2 (getUsers env uids data) (getTopics env tids data);
  let tidToTopic := zipObject (map toString_num tids) topics in
  let uidToUser := zipObject (map toString_num uids) users in
  let postsData := map (enrich_post tidToTopic uidToUser) postsData in
  mret (List.filter has_live_topic postsData).

(** ** Filters (lines 254-290) *)

(** [Number(post?.topic.postcount)]: reading [postcount] of a missing
    topic throws. *)
Definition topic_postcount (post : IPost) : result (option Z) :=
  match topic post with
  | Some t => Ok (Some (t_postcount t))
  | None => Throw TypeError
  end.

Definition filterByPostcount (posts : list IPost)
    (postCount repliesFilter : option string) : result (list IPost) :=
  let parsedPostCount := parseInt_opt postCount in
  if truthy_str postCount then
    let filterCondition :=
      if bool_decide (repliesFilter = Some "atleast")
      then fun post : IPost =>
             rbind (topic_postcount post) (fun n => Ok (num_geb n parsedPostCount))
      else fun post : IPost =>
             rbind (topic_postcount post) (fun n => Ok (num_leb n parsedPostCount)) in
    filter_throwing filterCondition posts
  else Ok posts.

(** [now] is the value of [Date.now()]. *)
Definition filterByTimerange (now : Z) (posts : list IPost)
    (timeRange timeFilter : option string) : list IPost :=
  let parsedTimeRange := (fun n => n * 1000) <$> parseInt_opt timeRange in
  if truthy_str timeRange then
    let time := (fun r => now - r) <$> parsedTimeRange in
    if bool_decide (timeFilter = Some "newer")
    then List.filter (fun post : IPost => num_geb (Some (timestamp post)) time) posts
    else List.filter (fun post : IPost => num_leb (Some (timestamp post)) time) posts
  else posts.

Definition has_all_tags (hasTags : list string) (post : IPost) : bool :=
  match topic post with
  | Some t =>
      match t_tags t with
      | Some (tag :: tags) =>
          forallb (fun wanted => bool_decide (wanted ∈ tag :: tags)) hasTags
      | _ => false
      end
  | None => false
  end.

Definition filterByTags (posts : list IPost) (hasTags : option StrOrArr)
  : list IPost :=
  match hasTags with
  | Some (Many (tag :: tags)) => List.filter (has_all_tags (tag :: tags)) posts
  | _ => posts
  end.

(** ** Sorting (lines 292-325) *)

(** [direction * x], where [x] may be infinite or [NaN]. *)
Definition times (direction : Z) (x : JsNum) : JsNum :=
  match x with
  | Fin q => Fin (inject_Z direction * q)
  | Inf s =>
      if direction =? 0 then NaN
      else Inf (if 0 <? direction then s else negb s)
  | NaN => NaN
  end.

(** The comparator of line 302. *)
Definition compare_field (direction : Z) (f : string) (post_1 post_2 : IPost)
  : result JsNum :=
  Ok (times direction (js_sub (post_get f post_2) (post_get f post_1))).

(** The comparator of line 314. *)
Definition compare_numeric (direction : Z) (f0 f1 : string)
    (post_1 post_2 : IPost) : result JsNum :=
  rbind (post_get2 f0 f1 post_2) (fun v2 =>
  rbind (post_get2 f0 f1 post_1) (fun v1 =>
  Ok (times direction (js_sub v2 v1)))).

(** The comparator of lines 316-323. *)
Definition compare_string (direction : Z) (f0 f1 : string)
    (post_1 post_2 : IPost) : result JsNum :=
  rbind (post_get2 f0 f1 post_1) (fun v1 =>
  rbind (post_get2 f0 f1 post_2) (fun v2 =>
  Ok (num_of_Z (if js_lt v2 v1 then direction
                else if js_lt v1 v2 then - direction
                else 0)))).

(** [sortPosts] sorts [posts] in place and may default
    [data.sortDirection]; the result is the state of both afterwards. *)
Definition sortPosts (env : Env) (posts : list IPost) (data : ISearchData)
  : result (list IPost * ISearchData) :=
  if negb (nonempty posts) || bool_decide (sortBy data = Some "relevance")
  then Ok (posts, data)
  else
    let data := set_sortDirection (or_str (sortDirection data) "desc") data in
    let direction :=
      if bool_decide (sortDirection data = Some "desc") then 1 else -1 in
    match sortBy data with
    | None => Throw TypeError
    | Some sb =>
        match split "." sb with
        | [f] =>
            rbind (sort (compare_field direction f) posts) (fun sorted =>
            Ok (sorted, data))
        | [f0; f1] =>
            let isValid :=
              match posts with
              | firstPost :: _ => truthy (post_get2_opt f0 f1 firstPost)
              | [] => false
              end in
            if negb isValid then Ok (posts, data)
            else
              let isNumeric :=
                match posts with
                | firstPost :: _ =>
                    utils_isNumber env (post_get2_opt f0 f1 firstPost)
                | [] => false
                end in
              rbind (sort ((if isNumeric then compare_numeric else compare_string)
                             direction f0 f1) posts) (fun sorted =>
              Ok (sorted, data))
        | _ => Ok (posts, data)
        end
    end.

(** ** The filter and sort stage (lines 159-182) *)

Definition fast_path (env : Env) (data : ISearchData) : bool :=
  bool_decide (sortBy data = Some "relevance") &&
  negb (truthy_str (replies data)) &&
  negb (truthy_str (timeRange data)) &&
  negb (truthy_soa (hasTags data)) &&
  negb (bool_decide (searchIn data = Some "bookmarks")) &&
  negb (hasListeners (plugins env) "filter:search.filterAndSort").

(** [post && post.pid], line 181. *)
Definition post_pid (post : option IPost) : jsid :=
  match post with Some p => Some (pid p) | None => None end.

(** The second component of the result is [data] as the call leaves it:
    [sortPosts] may have written [sortDirection] into it. *)
Definition filterAndSort (env : Env) (pids : list jsid) (data : ISearchData)
  : M (list jsid * ISearchData) :=
  if fast_path env data then mret (pids, data)
  else
    postsData ← getMatchedPosts env pids data;
    if negb (nonempty postsData) then mret (pids, data)
    else
      (* [postsData.filter(Boolean)] keeps every entry: all are objects *)
      postsData ← lift (filterByPostcount postsData (replies data)
                                          (repliesFilter data));
      let postsData :=
        filterByTimerange (Date_now env) postsData (timeRange data)
                          (timeFilter data) in
      let postsData := filterByTags postsData (hasTags data) in
      '(postsData, data) ← lift (sortPosts env postsData data);
      result ← fire "filter:search.filterAndSort"
                    (on_filterAndSort (plugins env))
                    {| fs_pids := pids;
                       fs_posts := map Some postsData;
                       fs_data := data |};
      mret (map post_pid (fs_posts result), data).

(** ** Scope resolution (lines 327-363) *)

Definition getWatchedCids (env : Env) (data : ISearchData) : M (list JsVal) :=
  match categories data with
  | None => throw TypeError
  | Some cats =>
      if negb (bool_decide (VStr "watched" ∈ cats)) then mret []
      else call (EScope "user.getWatchedCategories")
                (user_getWatchedCategories env (uid data))
  end.

Definition getChildrenCids (env : Env) (data : ISearchData) : M (list JsVal) :=
  if negb (searchChildren data) then mret []
  else
    match categories data with
    | None => throw TypeError
    | Some cats =>
        childrenCids ←
          all_map (fun cid => call (EScope "categories.getChildrenCids")
                                   (categories_getChildrenCids env cid)) cats;
        let wanted := uniq (concat childrenCids) in
        call (EScope "privileges.categories.filterCids")
             (privileges_categories_filterCids env "find" wanted (uid data))
    end.

Definition getSearchCids (env : Env) (data : ISearchData) : M (list JsVal) :=
  match categories data with
  | None | Some [] => mret []
  | Some cats =>
      if bool_decide (VStr "all" ∈ cats)
      then call (EScope "categories.getCidsByPrivilege")
                (categories_getCidsByPrivilege env "categories:cid" (uid data)
                                               "read")
      else
        '(watchedCids, childrenCids) ←
          all2 (getWatchedCids env data) (getChildrenCids env data);
        mret (uniq (List.filter truthy (watchedCids ++ childrenCids ++ cats)))
  end.

Definition getSearchUids (env : Env) (data : ISearchData) : M (list jsid) :=
  if negb (truthy_soa (postedBy data)) then mret []
  else
    call (EScope "user.getUidsByUsernames")
         (user_getUidsByUsernames env
            match postedBy data with
            | Some (Many l) => l
            | Some (One s) => [s]
            | None => []
            end).

(** ** Bookmarks (lines 124-157) *)

(** [v.toString()]: there is no such method on [undefined] or [null]. *)
Definition toString_method (v : JsVal) : result string :=
  match v with
  | VUndef => Throw TypeError
  | _ => Ok (toString v)
  end.

(** [tokens.some(f)] or [tokens.every(f)], lines 145-148. *)
Definition tokens_match (matchWords : option string) (tokens : list string)
    (content title : string) : bool :=
  let hit := fun token => includes token content || includes token title in
  if bool_decide (matchWords = Some "any")
  then existsb hit tokens
  else forallb hit tokens.

(** The matching rule in the words of the specification: [token] occurs
    in [s] when [s] is some text, [token], some text. With
    [matchWords = "any"] one token has to occur in the content or in the
    title, otherwise every token has to. *)
Definition occurs (token s : string) : Prop :=
  ∃ pre post, s = pre +:+ token +:+ post.

(** A text with a blank as its first, or as its last character. *)
Definition starts_blank (s : string) : Prop := ∃ r, s = " " +:+ r.
Definition ends_blank (s : string) : Prop := ∃ r, s = r +:+ " ".

Definition tokens_match_spec (matchWords : option string)
    (tokens : list string) (content title : string) : Prop :=
  if decide (matchWords = Some "any")
  then ∃ token, token ∈ tokens ∧ (occurs token content ∨ occurs token title)
  else ∀ token, token ∈ tokens → occurs token content ∨ occurs token title.

(** [p.tid] for a row of [postData]; a [null] row throws. *)
Definition row_tid (p : option JsObj) : result JsVal :=
  match p with
  | Some o => Ok (obj_get "tid" o)
  | None => Throw TypeError
  end.

(** [l.map(f)] with a callback that may throw. *)
Fixpoint map_throwing {A B} (f : A -> result B) (l : list A) : result (list B) :=
  match l with
  | [] => Ok []
  | x :: l' =>
      rbind (f x) (fun y => rbind (map_throwing f l') (fun r => Ok (y :: r)))
  end.

(** The callback of line 142 at index [i]. *)
Definition bookmark_matches (matchWords : option string) (tokens : list string)
    (postData : list (option JsObj)) (tidToTopic : gmap string (option JsObj))
    (i : nat) : result bool :=
  match postData !! i with
  | Some (Some row) =>
      rbind (toString_method (obj_get "content" row)) (fun content =>
      match tidToTopic !! toString (obj_get "tid" row) with
      | Some (Some t) =>
          rbind (toString_method (obj_get "title" t)) (fun title =>
          Ok (tokens_match matchWords tokens content title))
      | _ => Throw TypeError
      end)
  | _ => Throw TypeError
  end.

(** Lines 136-150: the text filter of one batch. *)
Definition filterByText (env : Env) (data : ISearchData) (q : string)
    (pids : list jsid) : M (list jsid) :=
  let tokens := split " " q in
  let postKeys := map (fun pid => "post:" +:+ toString_id pid "null") pids in
  postData ← call (EGetObjectsFields postKeys ["content"; "tid"])
                  (db_getObjectsFields env postKeys ["content"; "tid"]);
  rowTids ← lift (map_throwing row_tid postData);
  let tids := uniq rowTids in
  let topicKeys := map (fun tid => "topic:" +:+ toString tid) tids in
  topicData ← call (EGetObjectsFields topicKeys ["title"])
                   (db_getObjectsFields env topicKeys ["title"]);
  let tidToTopic := zipObject (map toString tids) topicData in
  kept ← lift (filter_throwing
                 (fun ip => bookmark_matches (matchWords data) tokens postData
                                             tidToTopic (fst ip))
                 (imap (fun i pid => (i, pid)) pids));
  mret (map snd kept).

(** The callback handed to [batch.processSortedSet], lines 127-152; its
    value is what it appends to [allPids]. *)
Definition bookmarksBatch (env : Env) (data : ISearchData)
    (searchCids : list JsVal) (searchUids : list jsid) (pids : list jsid)
  : M (list jsid) :=
  pids ← (if nonempty searchCids
          then call (EFilterPidsByCid pids)
                    (posts_filterPidsByCid env pids searchCids)
          else mret pids);
  pids ← (if nonempty searchUids
          then call (EFilterPidsByUid pids)
                    (posts_filterPidsByUid env pids searchUids)
          else mret pids);
  match query data with
  | Some q => if String.eqb q "" then mret pids else filterByText env data q pids
  | None => mret pids
  end.

Fixpoint each_batch (f : list jsid -> M (list jsid)) (batches : list (list jsid))
    (allPids : list jsid) : M (list jsid) :=
  match batches with
  | [] => mret allPids
  | b :: bs => kept ← f b; each_batch f bs (allPids ++ kept)
  end.

Definition bookmarksKey (data : ISearchData) : string :=
  "uid:" +:+ toString_id (uid data) "undefined" +:+ ":bookmarks".

Definition searchInBookmarks (env : Env) (data : ISearchData)
    (searchCids : list JsVal) (searchUids : list jsid) : M (list jsid) :=
  batches ← call (EBookmarks (bookmarksKey data) 500)
                 (batch_processSortedSet env (bookmarksKey data) 500);
  each_batch (bookmarksBatch env data searchCids searchUids) batches [].

(** ** Content search (lines 41-122) *)

(** [s.match(/^in:topic-([\d]+) /)]: the whole match and the digits. *)
Definition match_inTopic (s : string) : option (string * string) :=
  if String.prefix "in:topic-" s then
    let '(digits, rest) := span_digits (drop_str 9 s) in
    match digits, rest with
    | String _ _, String " " _ => Some ("in:topic-" +:+ digits +:+ " ", digits)
    | _, _ => None
    end
  else None.

(** The closure [doSearch], lines 49-63. Firing [filter:search.query] is
    what queries the text index. *)
Definition doSearch (env : Env) (data : ISearchData) (searchCids : list JsVal)
    (searchUids : list jsid) (type : string) (searchIn_ : list string)
  : M (list jsid) :=
  if bool_decide (searchIn data ∈ map Some searchIn_) then
    result ← call (EIndexQuery type (query data) (or_str (matchWords data) "all"))
                  (run_listeners (on_query (plugins env))
                     (QObject {| index := type;
                                 content := query data;
                                 qp_matchWords := or_str (matchWords data) "all";
                                 cid := searchCids;
                                 qp_uid := searchUids;
                                 searchData := data;
                                 ids := [] |}));
    mret (match result with QArray a => a | QObject p => ids p end)
  else mret [].

(** Line 85. *)
Definition mergePids (mainPids pids : list jsid) : list jsid :=
  filter Boolean (mainPids ++ pids).

(** [Math.ceil(a / b)] on integers, [b] not zero. *)
Definition ceil_div (a b : Z) : Z := - ((- a) / b).

(** Line 104. *)
Definition effectiveItemsPerPage (data : ISearchData) : Z :=
  Z.min (or_num (itemsPerPage data) 10) 100.

(** Line 109. *)
Definition computePageCount (matchCount itemsPerPage : Z) : Z :=
  Z.max 1 (ceil_div matchCount itemsPerPage).

(** Lines 112-115. *)
Definition pageSlice (data : ISearchData) (itemsPerPage : Z) (pids : list jsid)
  : list jsid :=
  match page data with
  | Some p =>
      if p =? 0 then pids
      else
        let start := Z.max 0 (p - 1) * itemsPerPage in
        slice start (start + itemsPerPage) pids
  | None => pids
  end.

(** Lines 96-101. *)
Definition rawIds (mainPids tids pids allPids : list jsid) : ContentResult :=
  let mainPidToTid :=
    zipObject (map (fun pid => toString_id pid "null") mainPids) tids in
  let returnPids := filter (fun pid => pid ∈ pids) allPids in
  let returnTids :=
    map (fun pid => default None (mainPidToTid !! toString_id pid "null"))
        (filter (fun pid => pid ∈ mainPids) allPids) in
  Ids returnPids returnTids.

(** Lines 104-121: page the final id list [metadata.pids], hydrate the
    page and assemble the response. *)
Definition pagedResult (env : Env) (data : ISearchData)
    (metadata : InContentPayload) : M ContentResult :=
  let itemsPerPage := effectiveItemsPerPage data in
  let matchCount := Z.of_nat (length (ic_pids metadata)) in
  let pageCount := computePageCount matchCount itemsPerPage in
  let shown := pageSlice data itemsPerPage (ic_pids metadata) in
  summaries ← call (EGetPostSummaryByPids shown (uid data))
                   (posts_getPostSummaryByPids env shown (uid data));
  let returnData :=
    {| posts := summaries; matchCount := matchCount; pageCount := pageCount |} in
  _ ← fire "filter:search.contentGetResult" (on_contentGetResult (plugins env))
           {| cg_result := returnData; cg_data := data |};
  mret (Paged returnData (ic_ext metadata)).

Definition searchInContent (env : Env) (data : ISearchData) : M ContentResult :=
  let data := set_uid (or_num (uid data) 0) data in
  '(searchCids, searchUids) ←
    all2 (getSearchCids env data) (getSearchUids env data);
  '(pids, tids) ←
    match match_inTopic (default "" (query data)) with
    | Some (whole, tid) =>
        let cleanedTerm := replace_first_empty whole (default "" (query data)) in
        pids ← call (ETopicSearch tid cleanedTerm)
                    (topics_search env tid cleanedTerm);
        mret (pids, [])
    | None =>
        if bool_decide (searchIn data = Some "bookmarks") then
          pids ← searchInBookmarks env data searchCids searchUids;
          mret (pids, [])
        else
          all2 (doSearch env data searchCids searchUids "post"
                         ["posts"; "titlesposts"])
               (doSearch env data searchCids searchUids "topic"
                         ["titles"; "titlesposts"])
    end;
  mainPids ← call (EGetMainPids tids) (topics_getMainPids env tids);
  let allPids := mergePids mainPids pids in
  allPids ← call (EPrivilegesFilter "topics:read" allPids (uid data))
                 (privileges_posts_filter env "topics:read" allPids (uid data));
  '(allPids, data) ← filterAndSort env allPids data;
  metadata ← fire "filter:search.inContent" (on_inContent (plugins env))
                  {| ic_pids := allPids; ic_data := data; ic_ext := [] |};
  if returnIds data then mret (rawIds mainPids tids pids allPids)
  else pagedResult env data metadata.

(** ** Entry point (lines 14-39) *)

Definition contentDomains : list string :=
  ["posts"; "titles"; "titlesposts"; "bookmarks"].

(** Every domain [search.search] handles itself. *)
Definition builtinDomains : list string :=
  contentDomains ++ ["users"; "categories"; "tags"].

Definition unknown_search_filter : string := "[[error:unknown-search-filter]]".

Definition search (env : Env) (data : ISearchData) : M SearchResult :=
  let data := set_sortBy (or_str (sortBy data) "relevance") data in
  result ←
    (if bool_decide (searchIn data ∈ map Some contentDomains) then
       r ← searchInContent env data; mret (OutContent r)
     else if bool_decide (searchIn data = Some "users") then
       r ← call (EDomainSearch "users") (user_search env data);
       mret (OutDomain r)
     else if bool_decide (searchIn data = Some "categories") then
       r ← call (EDomainSearch "categories") (categories_search env data);
       mret (OutDomain r)
     else if bool_decide (searchIn data = Some "tags") then
       r ← call (EDomainSearch "tags") (topics_searchAndLoadTags env data);
       mret (OutDomain r)
     else if truthy_str (searchIn data) then
       p ← fire "filter:search.searchIn" (on_searchIn (plugins env))
                {| si_data := data; si_ext := [] |};
       mret (OutHook p)
     else throw unknown_search_filter);
  mret {| body := result; time := elapsed env |}.

(** ** Classes of calls *)

(** A query of the text index, or a scan of the bookmark set: the general
    backend dispatch. *)
Definition is_dispatch (e : Event) : bool :=
  match e with
  | EIndexQuery _ _ _ | EBookmarks _ _ => true
  | _ => false
  end.

(** Any search capability: general dispatch or the per-topic search. *)
Definition is_search_call (e : Event) : bool :=
  match e with
  | EIndexQuery _ _ _ | EBookmarks _ _ | ETopicSearch _ _ => true
  | _ => false
  end.

(** A trace without calls of class [P]. *)
Definition avoids (P : Event -> bool) (t : list Event) : Prop :=
  Forall (fun e => P e = false) t.

(** ** Sample environments and queries

    Concrete collaborators on which the definitions can be run. *)

Definition noPlugins : Plugins :=
  {| on_searchIn := []; on_query := []; on_inContent := [];
     on_filterAndSort := []; on_contentGetResult := [] |}.

(** An installation with no extension, whose stores are given by
    [postStore], [topicStore] and [objectStore], and whose privilege filter
    lets everything through. *)
Definition storeEnv (postStore : jsid -> option IPostFields)
    (topicStore : Z -> option ITopicData)
    (objectStore : string -> option JsObj) : Env :=
  {| plugins := noPlugins;
     user_search := fun _ => Ok [];
     categories_search := fun _ => Ok [];
     topics_searchAndLoadTags := fun _ => Ok [];
     topics_search := fun _ _ => Ok [];
     topics_getMainPids := fun tids => Ok (map (fun _ => None) tids);
     topics_getTopicsData := fun tids => Ok (map topicStore tids);
     privileges_posts_filter := fun _ pids _ => Ok pids;
     privileges_categories_filterCids := fun _ cids _ => Ok cids;
     posts_getPostsFields := fun pids _ => Ok (map postStore pids);
     posts_getPostSummaryByPids := fun pids _ => Ok [];
     posts_filterPidsByCid := fun pids _ => Ok pids;
     posts_filterPidsByUid := fun pids _ => Ok pids;
     user_getUsersFields := fun uids _ => Ok (map (fun _ => None) uids);
     user_getWatchedCategories := fun _ => Ok [];
     user_getUidsByUsernames := fun _ => Ok [];
     categories_getCidsByPrivilege := fun _ _ _ => Ok [];
     categories_getChildrenCids := fun _ => Ok [];
     db_getObjectsFields := fun keys _ => Ok (map objectStore keys);
     batch_processSortedSet := fun _ _ => Ok [];
     utils_isNumber := fun v => match v with VNum _ => true | _ => false end;
     Date_now := 1000000;
     elapsed := "0.00" |}.

Definition emptyEnv : Env :=
  storeEnv (fun _ => None) (fun _ => None) (fun _ => None).

(** The query with every field absent. *)
Definition emptyQuery : ISearchData :=
  {| query := None; searchIn := None; matchWords := None; categories := None;
     searchChildren := false; postedBy := None; sortBy := None;
     sortDirection := None; replies := None; repliesFilter := None;
     timeRange := None; timeFilter := None; hasTags := None; page := None;
     itemsPerPage := None; returnIds := false; uid := None |}.

Definition set_searchIn (v : string) (d : ISearchData) : ISearchData :=
  {| query := query d; searchIn := Some v; matchWords := matchWords d;
     categories := categories d; searchChildren := searchChildren d;
     postedBy := postedBy d; sortBy := sortBy d;
     sortDirection := sortDirection d; replies := replies d;
     repliesFilter := repliesFilter d; timeRange := timeRange d;
     timeFilter := timeFilter d; hasTags := hasTags d; page := page d;
     itemsPerPage := itemsPerPage d; returnIds := returnIds d; uid := uid d |}.

Definition set_query (v : string) (d : ISearchData) : ISearchData :=
  {| query := Some v; searchIn := searchIn d; matchWords := matchWords d;
     categories := categories d; searchChildren := searchChildren d;
     postedBy := postedBy d; sortBy := sortBy d;
     sortDirection := sortDirection d; replies := replies d;
     repliesFilter := repliesFilter d; timeRange := timeRange d;
     timeFilter := timeFilter d; hasTags := hasTags d; page := page d;
     itemsPerPage := itemsPerPage d; returnIds := returnIds d; uid := uid d |}.

Definition set_page (p : option Z) (n : option Z) (d : ISearchData)
  : ISearchData :=
  {| query := query d; searchIn := searchIn d; matchWords := matchWords d;
     categories := categories d; searchChildren := searchChildren d;
     postedBy := postedBy d; sortBy := sortBy d;
     sortDirection := sortDirection d; replies := replies d;
     repliesFilter := repliesFilter d; timeRange := timeRange d;
     timeFilter := timeFilter d; hasTags := hasTags d; page := p;
     itemsPerPage := n; returnIds := returnIds d; uid := uid d |}.

Definition set_matchWords (v : string) (d : ISearchData) : ISearchData :=
  {| query := query d; searchIn := searchIn d; matchWords := Some v;
     categories := categories d; searchChildren := searchChildren d;
     postedBy := postedBy d; sortBy := sortBy d;
     sortDirection := sortDirection d; replies := replies d;
     repliesFilter := repliesFilter d; timeRange := timeRange d;
     timeFilter := timeFilter d; hasTags := hasTags d; page := page d;
     itemsPerPage := itemsPerPage d; returnIds := returnIds d; uid := uid d |}.

Definition samplePost (id container stamp flag : Z) : IPostFields :=
  {| pid := id; post_uid := 1; tid := container; timestamp := stamp;
     deleted := flag; upvotes := 0; downvotes := 0; extra := [] |}.

Definition sampleTopic (id flag count : Z) (names : list string) : ITopicData :=
  {| td_tid := id; td_cid := 1; td_deleted := flag; td_postcount := count;
     td_tags := Some (map Build_ITag names); td_extra := [] |}.

(** A relevance-ordered post search without filters. *)
Definition relevanceQuery : ISearchData :=
  set_sortBy "relevance" (set_searchIn "posts" emptyQuery).

(** A search in a domain nobody knows. *)
Definition unknownDomainQuery : ISearchData := set_searchIn "foo" emptyQuery.

(** A small forum: post 1 is soft-deleted, posts 2 and 3 are live in topic
    7, post 4 points to a topic that does not exist, post 5 sits in the
    soft-deleted topic 9. *)
Definition forumPosts (i : jsid) : option IPostFields :=
  match i with
  | Some 1 => Some (samplePost 1 7 100 1)
  | Some 2 => Some (samplePost 2 7 300 0)
  | Some 3 => Some (samplePost 3 7 200 0)
  | Some 4 => Some (samplePost 4 8 50 0)
  | Some 5 => Some (samplePost 5 9 400 0)
  | _ => None
  end.

Definition forumTopics (t : Z) : option ITopicData :=
  if t =? 7 then Some (sampleTopic 7 0 3 ["a"; "b"])
  else if t =? 9 then Some (sampleTopic 9 1 2 [])
  else None.

Definition forumEnv : Env := storeEnv forumPosts forumTopics (fun _ => None).

(** A post search ordered by time stamp. *)
Definition timestampQuery : ISearchData :=
  set_sortBy "timestamp" (set_searchIn "posts" emptyQuery).

(** A hydrated post in a live topic. *)
Definition hydratedPost (id stamp count : Z) (names : list string) : IPost :=
  {| fields := samplePost id 7 stamp 0;
     topic := Some {| t_tid := 7; t_cid := 1; t_deleted := 0;
                      t_postcount := count; t_tags := Some names;
                      t_category := None; t_extra := [] |};
     category := None;
     user := None |}.

Definition samplePosts : list IPost :=
  [hydratedPost 1 200 5 ["a"]; hydratedPost 2 400 4 ["a"; "b"; "c"];
   hydratedPost 3 100 6 ["b"]; hydratedPost 4 300 5 ["a"; "b"]].

(** A query with every filter of the stage set: at least five replies, the
    last hour, tag ["a"]. *)
Definition filteringQuery : ISearchData :=
  {| query := None; searchIn := Some "posts"; matchWords := None;
     categories := None; searchChildren := false; postedBy := None;
     sortBy := Some "timestamp"; sortDirection := None;
     replies := Some "5"; repliesFilter := Some "atleast";
     timeRange := Some "3600"; timeFilter := Some "newer";
     hasTags := Some (Many ["a"]); page := None; itemsPerPage := None;
     returnIds := false; uid := None |}.

(** The ids of a list of hydrated posts. *)
Definition pids_of (posts : list IPost) : list Z :=
  map (fun p : IPost => pid p) posts.

Definition timestamps_of (posts : list IPost) : list Z :=
  map (fun p : IPost => timestamp p) posts.

(** The ids [first], [first + 1], ... ([count] of them). *)
Definition idRange (first : Z) (count : nat) : list jsid :=
  map (fun i => Some (first + Z.of_nat i)) (seq 0 count).

(** The payload a silent [filter:search.inContent] hook hands back. *)
Definition metadataOf (pids : list jsid) (data : ISearchData) : InContentPayload :=
  {| ic_pids := pids; ic_data := data; ic_ext := [] |}.

(** The query of the specification that is scoped to topic 42. *)
Definition inTopicQuery : ISearchData :=
  set_query "in:topic-42 hello"
            (set_sortBy "relevance" (set_searchIn "titlesposts" emptyQuery)).

(** The same search without the scoping token. *)
Definition helloQuery : ISearchData :=
  set_query "hello"
            (set_sortBy "relevance" (set_searchIn "titlesposts" emptyQuery)).

(** An object store with one bookmarked post, in topic 7. *)
Definition petStore (key : string) : option JsObj :=
  if String.eqb key "post:1"
  then Some [("content", VStr "I have a cat"); ("tid", VNum 7)]
  else if String.eqb key "topic:7" then Some [("title", VStr "Pets")]
  else None.

Definition petEnv : Env := storeEnv (fun _ => None) (fun _ => None) petStore.

Definition catDogQuery (mode : string) : ISearchData :=
  set_matchWords mode
    (set_query "cat dog"
       (set_sortBy "relevance" (set_searchIn "bookmarks" emptyQuery))).

(** [e] with a bookmark set that arrives in the given batches. *)
Definition with_bookmarks (batches : list (list jsid)) (e : Env) : Env :=
  {| plugins := plugins e;
     user_search := user_search e;
     categories_search := categories_search e;
     topics_searchAndLoadTags := topics_searchAndLoadTags e;
     topics_search := topics_search e;
     topics_getMainPids := topics_getMainPids e;
     topics_getTopicsData := topics_getTopicsData e;
     privileges_posts_filter := privileges_posts_filter e;
     privileges_categories_filterCids := privileges_categories_filterCids e;
     posts_getPostsFields := posts_getPostsFields e;
     posts_getPostSummaryByPids := posts_getPostSummaryByPids e;
     posts_filterPidsByCid := posts_filterPidsByCid e;
     posts_filterPidsByUid := posts_filterPidsByUid e;
     user_getUsersFields := user_getUsersFields e;
     user_getWatchedCategories := user_getWatchedCategories e;
     user_getUidsByUsernames := user_getUidsByUsernames e;
     categories_getCidsByPrivilege := categories_getCidsByPrivilege e;
     categories_getChildrenCids := categories_getChildrenCids e;
     db_getObjectsFields := db_getObjectsFields e;
     batch_processSortedSet := fun _ _ => Ok batches;
     utils_isNumber := utils_isNumber e;
     Date_now := Date_now e;
     elapsed := elapsed e |}.

(** ** Further classes of calls and sample data *)

(** A fetch of the filter and sort stage: post fields, topics, users,
    objects of the store. *)
Definition is_stage_fetch (e : Event) : bool :=
  match e with
  | EGetPostsFields _ _ | EGetTopicsData _ | EGetUsersFields _ _
  | EGetObjectsFields _ _ => true
  | _ => false
  end.

Definition is_summary (e : Event) : bool :=
  match e with EGetPostSummaryByPids _ _ => true | _ => false end.

Definition is_users_fetch (e : Event) : bool :=
  match e with EGetUsersFields _ _ => true | _ => false end.

Definition is_objects_fetch (e : Event) : bool :=
  match e with EGetObjectsFields _ _ => true | _ => false end.

Definition set_categories (v : list JsVal) (flag : bool) (d : ISearchData)
  : ISearchData :=
  {| query := query d; searchIn := searchIn d; matchWords := matchWords d;
     categories := Some v; searchChildren := flag;
     postedBy := postedBy d; sortBy := sortBy d;
     sortDirection := sortDirection d; replies := replies d;
     repliesFilter := repliesFilter d; timeRange := timeRange d;
     timeFilter := timeFilter d; hasTags := hasTags d; page := page d;
     itemsPerPage := itemsPerPage d; returnIds := returnIds d; uid := uid d |}.

Definition set_returnIds (flag : bool) (d : ISearchData) : ISearchData :=
  {| query := query d; searchIn := searchIn d; matchWords := matchWords d;
     categories := categories d; searchChildren := searchChildren d;
     postedBy := postedBy d; sortBy := sortBy d;
     sortDirection := sortDirection d; replies := replies d;
     repliesFilter := repliesFilter d; timeRange := timeRange d;
     timeFilter := timeFilter d; hasTags := hasTags d; page := page d;
     itemsPerPage := itemsPerPage d; returnIds := flag; uid := uid d |}.

(** A scope of explicit ids, with a duplicate, a falsy entry and the
    marker of the watched categories. *)
Definition scopedQuery : ISearchData :=
  set_categories [VNum 3; VStr "watched"; VNum 0; VNum 3; VNum 5] false
                 relevanceQuery.


(** Lines 65-81 of [searchInContent] on their own: the choice between the
    per-topic search, the bookmark scan and the index queries. *)
Definition dispatch (env : Env) (data : ISearchData) (searchCids : list JsVal)
    (searchUids : list jsid) : M (list jsid * list jsid) :=
  match match_inTopic (default "" (query data)) with
  | Some (whole, tid) =>
      let cleanedTerm := replace_first_empty whole (default "" (query data)) in
      pids ← call (ETopicSearch tid cleanedTerm)
                  (topics_search env tid cleanedTerm);
      mret (pids, [])
  | None =>
      if bool_decide (searchIn data = Some "bookmarks") then
        pids ← searchInBookmarks env data searchCids searchUids;
        mret (pids, [])
      else
        all2 (doSearch env data searchCids searchUids "post"
                       ["posts"; "titlesposts"])
             (doSearch env data searchCids searchUids "topic"
                       ["titles"; "titlesposts"])
  end.

(** Lines 78-79: which index serves which domains. *)
Definition indexDomains : list (string * list string) :=
  [("post", ["posts"; "titlesposts"]); ("topic", ["titles"; "titlesposts"])].

(** [e] whose per-topic search finds the given posts. *)
Definition with_topic_search (hits : list jsid) (e : Env) : Env :=
  {| plugins := plugins e;
     user_search := user_search e;
     categories_search := categories_search e;
     topics_searchAndLoadTags := topics_searchAndLoadTags e;
     topics_search := fun _ _ => Ok hits;
     topics_getMainPids := topics_getMainPids e;
     topics_getTopicsData := topics_getTopicsData e;
     privileges_posts_filter := privileges_posts_filter e;
     privileges_categories_filterCids := privileges_categories_filterCids e;
     posts_getPostsFields := posts_getPostsFields e;
     posts_getPostSummaryByPids := posts_getPostSummaryByPids e;
     posts_filterPidsByCid := posts_filterPidsByCid e;
     posts_filterPidsByUid := posts_filterPidsByUid e;
     user_getUsersFields := user_getUsersFields e;
     user_getWatchedCategories := user_getWatchedCategories e;
     user_getUidsByUsernames := user_getUidsByUsernames e;
     categories_getCidsByPrivilege := categories_getCidsByPrivilege e;
     categories_getChildrenCids := categories_getChildrenCids e;
     db_getObjectsFields := db_getObjectsFields e;
     batch_processSortedSet := batch_processSortedSet e;
     utils_isNumber := utils_isNumber e;
     Date_now := Date_now e;
     elapsed := elapsed e |}.

(** The main post of topic [t] in the samples: post [10 * t]. *)
Definition sampleMainPid (t : jsid) : jsid := (fun n => 10 * n) <$> t.

(** A hydrated post with or without its author. *)
Definition authoredPost (id stamp : Z) (name : option string) : IPost :=
  {| fields := samplePost id 7 stamp 0;
     topic := Some {| t_tid := 7; t_cid := 1; t_deleted := 0;
                      t_postcount := 3; t_tags := None;
                      t_category := None; t_extra := [] |};
     category := None;
     user := (fun n => [("username", VStr n)]) <$> name |}.

Definition usernameQuery : ISearchData :=
  set_sortBy "user.username" (set_searchIn "posts" emptyQuery).

Definition votesQuery : ISearchData :=
  set_sortBy "votes" (set_searchIn "posts" emptyQuery).

(** The page number [p] of a query. *)
Definition at_page (p : Z) (d : ISearchData) : ISearchData :=
  set_page (Some p) (itemsPerPage d) d.

Definition set_hasTags (v : StrOrArr) (d : ISearchData) : ISearchData :=
  {| query := query d; searchIn := searchIn d; matchWords := matchWords d;
     categories := categories d; searchChildren := searchChildren d;
     postedBy := postedBy d; sortBy := sortBy d;
     sortDirection := sortDirection d; replies := replies d;
     repliesFilter := repliesFilter d; timeRange := timeRange d;
     timeFilter := timeFilter d; hasTags := Some v; page := page d;
     itemsPerPage := itemsPerPage d; returnIds := returnIds d; uid := uid d |}.

(** A relevance-ordered post search whose tag list is the empty array. *)
Definition emptyTagsQuery : ISearchData := set_hasTags (Many []) relevanceQuery.

(** A bookmark search for ["dog"] with a blank behind it, any token
    matching. *)
Definition dogBlankQuery : ISearchData :=
  set_matchWords "any"
    (set_query "dog "
       (set_sortBy "relevance" (set_searchIn "bookmarks" emptyQuery))).

(** A post with a score that the store holds as a string. *)
Definition scoredPost (id : Z) (score : string) : IPost :=
  {| fields := {| pid := id; post_uid := 1; tid := 7; timestamp := 100;
                  deleted := 0; upvotes := 0; downvotes := 0;
                  extra := [("score", VStr score)] |};
     topic := None; category := None; user := None |}.

Definition scoreQuery : ISearchData :=
  set_sortBy "score" (set_searchIn "posts" emptyQuery).
End Search.

(* ===================================================================== *)
(** * Facts about the JavaScript primitives *)
(* ===================================================================== *)

Module JsFacts.
Import Js JsArray.

Section Filters.
Context {A : Type}.
Implicit Types l : list A.

Lemma filter_bool_sublist (f : A -> bool) l : List.filter f l `sublist_of` l.
Proof.
  induction l as [|x l IH]; simpl.
  - constructor.
  - destruct (f x); [by apply sublist_skip | by apply sublist_cons].
Qed.

Lemma filter_bool_elem_of (f : A -> bool) l x :
  x ∈ List.filter f l ↔ x ∈ l ∧ f x = true.
Proof. rewrite !list_elem_of_In. apply filter_In. Qed.

Lemma filter_throwing_sublist (f : A -> result bool) l r :
  filter_throwing f l = Ok r → r `sublist_of` l.
Proof.
  revert r. induction l as [|x l IH]; simpl; intros r H.
  - injection H as <-. constructor.
  - destruct (f x) as [keep|]; simpl in H; [|discriminate].
    destruct (filter_throwing f l) as [r'|]; simpl in H; [|discriminate].
    injection H as <-.
    destruct keep; [apply sublist_skip | apply sublist_cons]; by apply IH.
Qed.

(** A callback that does not throw on the members of [l] makes
    [filter_throwing] the ordinary filter. *)
Lemma filter_throwing_total (f : A -> result bool) (g : A -> bool) l :
  (∀ x, x ∈ l → f x = Ok (g x)) →
  filter_throwing f l = Ok (List.filter g l).
Proof.
  induction l as [|x l IH]; simpl; intros H; [done|].
  rewrite (H x) by apply list_elem_of_here. simpl.
  rewrite IH by (intros y Hy; apply H; by apply list_elem_of_further).
  simpl. by destruct (g x).
Qed.

End Filters.

Lemma filter_bool_map_snd {A B} (g : B -> bool) (l : list (A * B)) :
  map snd (List.filter (fun ab => g (snd ab)) l) = List.filter g (map snd l).
Proof.
  induction l as [|[a b] l IH]; simpl; [done|].
  destruct (g b); simpl; by rewrite IH.
Qed.

Lemma map_snd_imap_pair {A} (l : list A) :
  map snd (imap (fun i x => (i, x)) l) = l.
Proof.
  change (fun (i : nat) (x : A) => (i, x)) with (fun (i : nat) (x : A) => (id i, x)).
  generalize (@id nat). induction l as [|x l IH]; intros f; simpl; [done|].
  f_equal. apply (IH (f ∘ S)).
Qed.

(** ** [slice] *)

Section Slice.
Context {A : Type}.
Implicit Types l : list A.

Lemma slice_nonneg l (start stop : Z) :
  0 <= start → 0 <= stop →
  slice start stop l = take (Z.to_nat (stop - start)) (drop (Z.to_nat start) l).
Proof.
  intros Hs He. unfold slice.
  destruct (Z.ltb_spec start 0); [lia|].
  destruct (Z.ltb_spec stop 0); [lia|].
  set (len := Z.of_nat (length l)).
  destruct (Z_le_gt_dec start len) as [Hle|Hgt].
  - rewrite (Z.min_l start len) by lia.
    destruct (Z_le_gt_dec stop len) as [Hle'|Hgt'].
    + by rewrite (Z.min_l stop len) by lia.
    + rewrite (Z.min_r stop len) by lia.
      rewrite !take_ge; [done| |]; rewrite length_drop; unfold len in *; lia.
  - rewrite (Z.min_r start len) by lia.
    rewrite !drop_ge by (unfold len in *; lia).
    by rewrite !take_nil.
Qed.

(** The slice that starts at a non-negative offset with a non-negative
    size, read by offset. *)
Lemma slice_lookup l (start size : Z) (i : nat) :
  0 <= start → 0 <= size →
  slice start (start + size) l !! i =
    if decide (Z.of_nat i < size) then l !! (Z.to_nat start + i)%nat else None.
Proof.
  intros Hs Hn. rewrite slice_nonneg by lia.
  replace (start + size - start) with size by lia.
  case_decide.
  - rewrite lookup_take_lt by lia. by rewrite lookup_drop.
  - apply lookup_take_ge. lia.
Qed.

Lemma slice_sublist l (start stop : Z) : slice start stop l `sublist_of` l.
Proof.
  unfold slice. etrans; [apply sublist_take | apply sublist_drop].
Qed.

End Slice.

(** ** [sort] *)

Section SortPermutation.
Context {A : Type}.
Variable cmp : A -> A -> result JsNum.

Lemma sort_insert_Permutation x l r :
  sort_insert cmp x l = Ok r → r ≡ₚ x :: l.
Proof.
  revert r. induction l as [|y l IH]; simpl; intros r H.
  - by injection H as <-.
  - destruct (cmp x y) as [c|]; simpl in H; [|discriminate].
    destruct (after c).
    + destruct (sort_insert cmp x l) as [r'|]; simpl in H; [|discriminate].
      injection H as <-. rewrite (IH r') by done. apply perm_swap.
    + by injection H as <-.
Qed.

(** Whatever the comparator does, a sort that returns has only reordered
    its input. *)
Lemma sort_Permutation l r : sort cmp l = Ok r → r ≡ₚ l.
Proof.
  revert r. induction l as [|x l IH]; simpl; intros r H.
  - by injection H as <-.
  - destruct (sort cmp l) as [r'|]; simpl in H; [|discriminate].
    rewrite (sort_insert_Permutation _ _ _ H). by rewrite (IH r').
Qed.

End SortPermutation.

Section Sort.
Context {A : Type}.
Variable cmp : A -> A -> result JsNum.
(** The order the comparator is meant to realise: [R a b] when [a] may
    stand before [b]. *)
Variable R : A -> A -> Prop.
Hypothesis R_trans : ∀ a b c, R a b → R b c → R a c.
(** The comparator never throws; when it does not ask for [a] to go after
    [b], [a] may stand before [b]; when it does, [b] may stand before [a]. *)
Hypothesis cmp_sound :
  ∀ a b, ∃ c, cmp a b = Ok c ∧ (if after c then R b a else R a b).

Lemma sort_insert_spec x l :
  StronglySorted R l →
  ∃ r, sort_insert cmp x l = Ok r ∧ r ≡ₚ x :: l ∧ StronglySorted R r.
Proof.
  induction l as [|y l IH]; simpl; intros Hs.
  - exists [x]. repeat split; [done|]. repeat constructor.
  - destruct (cmp_sound x y) as (c & -> & Hc). simpl.
    inversion Hs as [|? ? Hl Hy]; subst.
    destruct (after c).
    + destruct (IH Hl) as (r & -> & Hp & Hr). simpl.
      exists (y :: r). repeat split.
      * rewrite Hp. apply perm_swap.
      * constructor; [done|].
        rewrite Forall_forall. intros z Hz.
        rewrite Hp in Hz. apply elem_of_cons in Hz as [->|Hz]; [done|].
        rewrite Forall_forall in Hy. by apply Hy.
    + exists (x :: y :: l). repeat split; [done|].
      constructor; [done|]. constructor; [done|].
      rewrite Forall_forall in Hy. rewrite Forall_forall.
      intros z Hz. eapply R_trans; [exact Hc | by apply Hy].
Qed.

Lemma sort_spec l :
  ∃ r, sort cmp l = Ok r ∧ r ≡ₚ l ∧ StronglySorted R r.
Proof.
  induction l as [|x l (r & Hr & Hp & Hs)]; simpl.
  - exists []. repeat split; [done|]. constructor.
  - rewrite Hr. simpl.
    destruct (sort_insert_spec x r Hs) as (r' & -> & Hp' & Hs').
    exists r'. repeat split; [|done]. by rewrite Hp', Hp.
Qed.

End Sort.

(** ** [uniq] and [zipObject] *)

Section Uniq.
Context {A : Type} `{EqDecision A}.
Implicit Types l seen : list A.

Lemma uniq_from_elem_of seen l x :
  x ∈ uniq_from seen l ↔ x ∈ l ∧ x ∉ seen.
Proof.
  revert seen. induction l as [|y l IH]; intros seen; simpl.
  - split; [by intros ?%elem_of_nil | by intros [?%elem_of_nil _]].
  - case_decide as Hy.
    + rewrite IH, elem_of_cons. split; [tauto|].
      intros [[->|?] ?]; [done|tauto].
    + rewrite !elem_of_cons, IH, not_elem_of_cons.
      destruct (decide (x = y)) as [->|]; tauto.
Qed.

Lemma uniq_elem_of l x : x ∈ uniq l ↔ x ∈ l.
Proof.
  unfold uniq. rewrite uniq_from_elem_of.
  split; [tauto|]. intros ?. split; [done|]. apply not_elem_of_nil.
Qed.

End Uniq.

Section ZipObject.
Context {A B : Type}.

Lemma zipObject_from_lookup (key : A -> string) (val : A -> B)
    (m : gmap string B) (l : list A) (k : A) :
  (∀ x, x ∈ l → key x = key k → val x = val k) →
  zipObject_from m (map key l) (map val l) !! key k
  = if decide (key k ∈ map key l) then Some (val k) else m !! key k.
Proof.
  revert m. induction l as [|x l IH]; intros m H; simpl; [done|].
  rewrite IH by (intros; apply H; [by apply list_elem_of_further|done]).
  destruct (decide (key k ∈ map key l)) as [Hin|Hout].
  - rewrite decide_True; [done|]. by apply list_elem_of_further.
  - destruct (decide (key x = key k)) as [Heq|Hne].
    + rewrite decide_True by (rewrite Heq; apply list_elem_of_here).
      rewrite Heq, lookup_insert_eq. f_equal.
      apply H; [apply list_elem_of_here | done].
    + rewrite decide_False by (intros [?|?]%elem_of_cons; done).
      by rewrite lookup_insert_ne.
Qed.

(** Reading a dictionary built from keys and the values computed from
    them: a listed key yields its value. *)
Lemma zipObject_lookup (key : A -> string) (val : A -> B) (l : list A) (k : A) :
  (∀ x, x ∈ l → key x = key k → val x = val k) →
  k ∈ l →
  zipObject (map key l) (map val l) !! key k = Some (val k).
Proof.
  intros H Hin. unfold zipObject. rewrite zipObject_from_lookup by done.
  rewrite decide_True; [done|]. by apply list_elem_of_fmap_2.
Qed.

End ZipObject.

(** ** [includes] *)

Lemma prefix_app_iff (t s : string) :
  String.prefix t s = true ↔ ∃ post, s = t +:+ post.
Proof.
  revert s. induction t as [|a t IH]; intros s.
  - destruct s; (split; [intros _; by eexists | done]).
  - destruct s as [|b s]; cbn.
    + split; [done | intros [post H]; discriminate].
    + destruct (Ascii.ascii_dec a b) as [->|Hne].
      * rewrite IH. split; intros [post H]; exists post.
        -- by rewrite H.
        -- by injection H.
      * split; [done|]. intros [post H]. injection H as ? _. congruence.
Qed.

(** [includes t s] holds exactly when [t] occurs in [s]. *)
Lemma includes_iff (t s : string) :
  includes t s = true ↔ ∃ pre post, s = pre +:+ t +:+ post.
Proof.
  induction s as [|b s IH]; cbn [includes].
  - rewrite orb_false_r, prefix_app_iff. split.
    + intros [post H]. by exists "", post.
    + intros (pre & post & H). destruct pre; [by exists post|discriminate].
  - rewrite orb_true_iff, IH, prefix_app_iff. split.
    + intros [[post H]|(pre & post & H)].
      * by exists "", post.
      * exists (String b pre), post. cbn. by rewrite H.
    + intros (pre & post & H). destruct pre as [|c pre]; cbn in H.
      * left. by exists post.
      * right. injection H as _ H. by exists pre, post.
Qed.

End JsFacts.

(* ===================================================================== *)
(** * Properties of the search module *)
(* ===================================================================== *)

Module SearchFacts.
Import Js JsArray Search JsFacts.

(** ** Traces of computations *)

Section Traces.
Variable P : Event -> bool.

Lemma avoids_nil : avoids P [].
Proof. constructor. Qed.

Lemma avoids_app t1 t2 : avoids P t1 → avoids P t2 → avoids P (t1 ++ t2).
Proof. unfold avoids. rewrite Forall_app. tauto. Qed.

Lemma avoids_ret {A} (a : A) : avoids P (fst (mret a : M A)).
Proof. apply avoids_nil. Qed.

Lemma avoids_throw {A} e : avoids P (fst (throw e : M A)).
Proof. apply avoids_nil. Qed.

Lemma avoids_lift {A} (r : result A) : avoids P (fst (lift r)).
Proof. apply avoids_nil. Qed.

Lemma avoids_call {A} e (r : result A) :
  P e = false → avoids P (fst (call e r)).
Proof. intros H. by repeat constructor. Qed.

Lemma avoids_fire {X} hook (ls : list (X -> result X)) p :
  P (EFire hook) = false → avoids P (fst (fire hook ls p)).
Proof. apply avoids_call. Qed.

Lemma avoids_bind {A B} (m : M A) (f : A -> M B) :
  avoids P (fst m) → (∀ a, avoids P (fst (f a))) → avoids P (fst (m ≫= f)).
Proof.
  destruct m as [t [a|e]]; simpl; intros Ht Hf; [|done].
  specialize (Hf a). unfold mbind, M_bind, bind.
  destruct (f a) as [t' r]. simpl in *. by apply avoids_app.
Qed.

Lemma avoids_all2 {A B} (m1 : M A) (m2 : M B) :
  avoids P (fst m1) → avoids P (fst m2) → avoids P (fst (all2 m1 m2)).
Proof.
  destruct m1 as [t1 r1], m2 as [t2 r2]. simpl. apply avoids_app.
Qed.

Lemma avoids_all_map {A B} (f : A -> M B) (l : list A) :
  (∀ a, avoids P (fst (f a))) → avoids P (fst (all_map f l)).
Proof.
  intros Hf. induction l as [|x l IH]; simpl; [apply avoids_nil|].
  pose proof (avoids_all2 (f x) (all_map f l) (Hf x) IH) as H.
  by destruct (all2 (f x) (all_map f l)).
Qed.

End Traces.

Create HintDb traces.

(** Walks through a computation, leaving the side condition of every
    call. *)
Ltac walk_trace :=
  repeat first
    [ solve [auto with traces]
    | apply avoids_nil
    | apply avoids_ret
    | apply avoids_throw
    | apply avoids_lift
    | apply avoids_bind
    | apply avoids_all2
    | apply avoids_all_map
    | apply avoids_call; try first [reflexivity | solve [auto]]
    | apply avoids_fire; try first [reflexivity | solve [auto]]
    | progress intros
    | match goal with
      | |- avoids _ (fst (match ?x with _ => _ end)) => destruct x
      | |- avoids _ (fst (let '(_, _) := ?x in _)) => destruct x
      end ].

(** The trace of a sequence: the calls of the first computation, then,
    when it returned, those of the second. *)
Lemma fst_bind {A B} (m : M A) (f : A -> M B) :
  fst (m ≫= f)
  = fst m ++ match snd m with Ok a => fst (f a) | Throw _ => [] end.
Proof.
  unfold mbind, M_bind, bind. destruct m as [t [a|e]]; simpl.
  - by destruct (f a).
  - by rewrite app_nil_r.
Qed.

(** ** The scoping token *)

Lemma span_digits_app digits rest :
  all_digits digits = true →
  span_digits (digits +:+ " " +:+ rest) = (digits, " " +:+ rest).
Proof.
  induction digits as [|a digits IH]; [done|].
  cbn [all_digits]. intros [Ha Hd]%andb_prop.
  change (String a digits +:+ " " +:+ rest)
    with (String a (digits +:+ " " +:+ rest)).
  cbn [span_digits]. rewrite Ha. by rewrite (IH Hd).
Qed.

(** A text that starts with ["in:topic-"], a run of digits and a blank
    matches the pattern of line 68: the match is that prefix, the group is
    the digits. *)
Lemma match_inTopic_scoped digits rest :
  digits ≠ "" →
  all_digits digits = true →
  match_inTopic ("in:topic-" +:+ digits +:+ " " +:+ rest)
  = Some ("in:topic-" +:+ digits +:+ " ", digits).
Proof.
  intros Hne Hd. unfold match_inTopic.
  replace (String.prefix "in:topic-" ("in:topic-" +:+ digits +:+ " " +:+ rest))
    with true by (symmetry; apply prefix_app_iff; by eexists).
  change (drop_str 9 ("in:topic-" +:+ digits +:+ " " +:+ rest))
    with (digits +:+ " " +:+ rest).
  rewrite span_digits_app by done.
  destruct digits; [done|]. reflexivity.
Qed.

Lemma drop_str_app pat rest : drop_str (String.length pat) (pat +:+ rest) = rest.
Proof. induction pat as [|a pat IH]; cbn; [by destruct rest | done]. Qed.

(** Removing the match from the text leaves what follows the token. *)
Lemma replace_first_empty_prefix pat rest :
  replace_first_empty pat (pat +:+ rest) = rest.
Proof.
  assert (Hp : String.prefix pat (pat +:+ rest) = true)
    by (apply prefix_app_iff; by eexists).
  destruct (pat +:+ rest) as [|a s] eqn:Hs; cbn [replace_first_empty];
    rewrite Hp, <- Hs; apply drop_str_app.
Qed.

Lemma append_cons x (a b : string) : String x a +:+ b = String x (a +:+ b).
Proof. reflexivity. Qed.

Lemma string_app_assoc (a b c : string) : (a +:+ b) +:+ c = a +:+ (b +:+ c).
Proof.
  induction a as [|x a IH]; [done|]. by rewrite !append_cons, IH.
Qed.

Section PipelineTraces.
Variable P : Event -> bool.
Variable env : Env.

(** Calls of a class that holds no store read, no privilege check, no
    hook and no scope lookup. *)
Hypothesis P_fire : ∀ hook, P (EFire hook) = false.
Hypothesis P_objects : ∀ keys fs, P (EGetObjectsFields keys fs) = false.
Hypothesis P_topics : ∀ tids, P (EGetTopicsData tids) = false.
Hypothesis P_users : ∀ uids fs, P (EGetUsersFields uids fs) = false.
Hypothesis P_posts : ∀ pids fs, P (EGetPostsFields pids fs) = false.
Hypothesis P_scope : ∀ what, P (EScope what) = false.
Hypothesis P_main : ∀ tids, P (EGetMainPids tids) = false.
Hypothesis P_priv : ∀ p pids u, P (EPrivilegesFilter p pids u) = false.
Hypothesis P_summary : ∀ pids u, P (EGetPostSummaryByPids pids u) = false.

Lemma getCategories_avoids cids data :
  avoids P (fst (getCategories env cids data)).
Proof. unfold getCategories. walk_trace. Qed.
#[local] Hint Resolve getCategories_avoids : traces.

Lemma getTopics_avoids tids data : avoids P (fst (getTopics env tids data)).
Proof. unfold getTopics. walk_trace. Qed.
#[local] Hint Resolve getTopics_avoids : traces.

Lemma getUsers_avoids uids data : avoids P (fst (getUsers env uids data)).
Proof. unfold getUsers. walk_trace. Qed.
#[local] Hint Resolve getUsers_avoids : traces.

Lemma getMatchedPosts_avoids pids data :
  avoids P (fst (getMatchedPosts env pids data)).
Proof.
  unfold getMatchedPosts. walk_trace.
Qed.
#[local] Hint Resolve getMatchedPosts_avoids : traces.

Lemma filterAndSort_avoids pids data :
  avoids P (fst (filterAndSort env pids data)).
Proof.
  unfold filterAndSort. walk_trace.
Qed.
#[local] Hint Resolve filterAndSort_avoids : traces.

Lemma pagedResult_avoids data metadata :
  avoids P (fst (pagedResult env data metadata)).
Proof. unfold pagedResult. walk_trace. Qed.
#[local] Hint Resolve pagedResult_avoids : traces.

Lemma getSearchCids_avoids data : avoids P (fst (getSearchCids env data)).
Proof.
  unfold getSearchCids, getWatchedCids, getChildrenCids. walk_trace.
Qed.
#[local] Hint Resolve getSearchCids_avoids : traces.

Lemma getSearchUids_avoids data : avoids P (fst (getSearchUids env data)).
Proof. unfold getSearchUids. walk_trace. Qed.
#[local] Hint Resolve getSearchUids_avoids : traces.

(** The trace of a content search whose text starts with the scoping
    token: scope resolution, then, when that returned, the per-topic search
    on the digits and the remaining text, followed by calls of the rest of
    the pipeline. *)
Lemma searchInContent_inTopic_trace data digits rest :
  query data = Some ("in:topic-" +:+ digits +:+ " " +:+ rest) →
  digits ≠ "" →
  all_digits digits = true →
  let data' := set_uid (or_num (uid data) 0) data in
  let scope := all2 (getSearchCids env data') (getSearchUids env data') in
  ∃ t3,
    fst (searchInContent env data)
    = fst scope ++ match snd scope with
                   | Ok _ => ETopicSearch digits rest :: t3
                   | Throw _ => []
                   end
    ∧ avoids P (fst scope) ∧ avoids P t3.
Proof.
  intros Hq Hne Hd data' scope. unfold searchInContent.
  fold data'. change (query data') with (query data). rewrite Hq.
  cbn [default from_option id]. rewrite match_inTopic_scoped by done.
  replace ("in:topic-" +:+ digits +:+ " " +:+ rest)
    with (("in:topic-" +:+ digits +:+ " ") +:+ rest)
    by (by rewrite !string_app_assoc).
  rewrite replace_first_empty_prefix.
  fold scope. rewrite fst_bind.
  assert (Hscope : avoids P (fst scope)) by (unfold scope; walk_trace).
  destruct (snd scope) as [[searchCids searchUids]|e].
  - rewrite fst_bind, fst_bind. cbn [call fst snd app].
    eexists. split; [reflexivity|]. split; [done|].
    apply avoids_app.
    + destruct (topics_search env digits rest); walk_trace.
    + destruct (snd _) as [[pids tids]|]; walk_trace.
  - exists []. split; [done|]. split; [done|apply avoids_nil].
Qed.

End PipelineTraces.

(** ** The fast path of the filter and sort stage *)

(** An array for [hasTags] is not an absent criterion for the guard, be
    it empty: an array is truthy. *)
Remark fast_path_tag_array (env : Env) (data : ISearchData) tags :
  hasTags data = Some (Many tags) → fast_path env data = false.
Proof.
  intros H. unfold fast_path. rewrite H. simpl.
  by rewrite !andb_false_r.
Qed.

(** C1, as the code has it. Let the query sort by relevance, have
    [replies] and [timeRange] absent or empty, not search the bookmarks,
    and let no listener be registered on [filter:search.filterAndSort].
    When [hasTags] is absent or the empty string, [filterAndSort] returns
    the candidate list unchanged and calls no collaborator at all: its
    trace is empty, so no post, topic, user or category is fetched. When
    [hasTags] is an array, be it the empty array, which asks for no tag,
    the guard fails and the stage starts to hydrate: it fetches the fields
    of the candidates. *)
Theorem filterAndSort_fast_path (env : Env) (pids : list jsid)
    (data : ISearchData) :
  sortBy data = Some "relevance" →
  truthy_str (replies data) = false →
  truthy_str (timeRange data) = false →
  searchIn data ≠ Some "bookmarks" →
  hasListeners (plugins env) "filter:search.filterAndSort" = false →
  (truthy_soa (hasTags data) = false →
   filterAndSort env pids data = ([], Ok (pids, data)))
  ∧ (∀ tags, hasTags data = Some (Many tags) →
       ∃ rest, fst (filterAndSort env pids data)
               = EGetPostsFields pids postFields :: rest).
Proof.
  intros Hsort Hreplies Htime Hdomain Hhook. split.
  - intros Htags. unfold filterAndSort, fast_path.
    rewrite Hsort, Hreplies, Htime, Htags, Hhook.
    rewrite (bool_decide_eq_false_2 _ Hdomain).
    reflexivity.
  - intros tags Htags. unfold filterAndSort.
    rewrite (fast_path_tag_array env data tags Htags).
    rewrite fst_bind. unfold getMatchedPosts. rewrite fst_bind.
    cbn [call fst]. by eexists.
Qed.

Lemma filterAndSort_fast_path_witness :
  filterAndSort emptyEnv [Some 3; Some 1; Some 2] relevanceQuery
  = ([], Ok ([Some 3; Some 1; Some 2], relevanceQuery)).
Proof.
  apply (filterAndSort_fast_path emptyEnv [Some 3; Some 1; Some 2]
           relevanceQuery);
    first [reflexivity | intros H; discriminate H].
Defined.

(** C1 as the spec states it fails: with the empty array for [hasTags]
    the query sorts by relevance and has no replies, time-range or tag
    criterion (the tag filter keeps every post), it is no bookmark search
    and there is no listener; yet the stage fetches the posts and their
    topics and returns the candidates without the soft-deleted post 1. *)
Lemma filterAndSort_empty_tag_array_hydrates :
  sortBy emptyTagsQuery = Some "relevance"
  ∧ replies emptyTagsQuery = None
  ∧ timeRange emptyTagsQuery = None
  ∧ hasTags emptyTagsQuery = Some (Many [])
  ∧ filterByTags samplePosts (hasTags emptyTagsQuery) = samplePosts
  ∧ searchIn emptyTagsQuery = Some "posts"
  ∧ hasListeners (plugins forumEnv) "filter:search.filterAndSort" = false
  ∧ filterAndSort forumEnv [Some 1; Some 3; Some 2] emptyTagsQuery
    = ([EGetPostsFields [Some 1; Some 3; Some 2] postFields;
        EGetTopicsData [7]; EFire "filter:search.filterAndSort"],
       Ok ([Some 3; Some 2], emptyTagsQuery)).
Proof. repeat split; vm_compute; reflexivity. Qed.

(** ** Unknown domains *)

Lemma searchIn_set_sortBy v data : searchIn (set_sortBy v data) = searchIn data.
Proof. reflexivity. Qed.

(** C2, as the code has it. For a domain that is no built-in, with no
    listener on [filter:search.searchIn]: the search throws
    [[[error:unknown-search-filter]]], before any call, exactly when the
    domain is absent or empty; a non-empty unknown domain fires the hook
    and returns the hook payload with the elapsed time. *)
Theorem search_unknown_domain (env : Env) (data : ISearchData) :
  searchIn data ∉ map Some builtinDomains →
  on_searchIn (plugins env) = [] →
  search env data =
    if truthy_str (searchIn data)
    then ([EFire "filter:search.searchIn"],
          Ok {| body := OutHook
                   {| si_data := set_sortBy (or_str (sortBy data) "relevance") data;
                      si_ext := [] |};
                time := elapsed env |})
    else ([], Throw unknown_search_filter).
Proof.
  intros Hdomain Hhook. unfold search.
  rewrite searchIn_set_sortBy.
  assert (Hne : ∀ d, d ∈ builtinDomains → searchIn data ≠ Some d).
  { intros d Hd Heq. apply Hdomain. rewrite Heq.
    by apply list_elem_of_fmap_2. }
  rewrite bool_decide_eq_false_2.
  2: { intros (d & Heq & Hd)%list_elem_of_fmap. apply (Hne d); [|done].
       unfold builtinDomains. apply elem_of_app. by left. }
  rewrite !bool_decide_eq_false_2
    by (apply Hne; unfold builtinDomains, contentDomains; set_solver).
  rewrite Hhook.
  by destruct (truthy_str (searchIn data)).
Qed.

Lemma search_unknown_domain_witness :
  search emptyEnv unknownDomainQuery =
    ([EFire "filter:search.searchIn"],
     Ok {| body := OutHook {| si_data := set_sortBy "relevance" unknownDomainQuery;
                              si_ext := [] |};
           time := "0.00" |})
  ∧ search emptyEnv emptyQuery = ([], Throw unknown_search_filter).
Proof.
  split.
  - apply (search_unknown_domain emptyEnv unknownDomainQuery); [|reflexivity].
    refine (bool_decide_eq_false_1 _ _). reflexivity.
  - apply (search_unknown_domain emptyEnv emptyQuery); [|reflexivity].
    refine (bool_decide_eq_false_1 _ _). reflexivity.
Defined.

(** C2 as the spec states it fails: the domain ["foo"] is no built-in and
    no extension is registered, yet the search returns a result. *)
Lemma search_unknown_domain_no_error :
  (searchIn unknownDomainQuery ∉ map Some builtinDomains)
  ∧ plugins emptyEnv = noPlugins
  ∧ (∃ r, snd (search emptyEnv unknownDomainQuery) = Ok r)
  ∧ ¬ (∃ e, snd (search emptyEnv unknownDomainQuery) = Throw e).
Proof.
  split; [|split; [|split]].
  - refine (bool_decide_eq_false_1 _ _). reflexivity.
  - reflexivity.
  - eexists. reflexivity.
  - intros [e He]. discriminate He.
Qed.

(** ** Merging and filtering keep the order *)

Lemma mergePids_app mainPids pids :
  mergePids mainPids pids = filter Boolean mainPids ++ filter Boolean pids.
Proof. unfold mergePids. apply filter_app. Qed.

Lemma mergePids_truthy mainPids pids : Forall Boolean (mergePids mainPids pids).
Proof.
  rewrite Forall_forall. intros i Hi. unfold mergePids in Hi.
  by apply list_elem_of_filter in Hi as [? _].
Qed.

Lemma filterByPostcount_sublist posts postCount repliesFilter kept :
  filterByPostcount posts postCount repliesFilter = Ok kept →
  kept `sublist_of` posts.
Proof.
  unfold filterByPostcount. destruct (truthy_str postCount).
  - apply filter_throwing_sublist.
  - intros [= <-]. reflexivity.
Qed.

(** On posts that carry their topic the reply-count filter cannot throw. *)
Lemma filterByPostcount_total posts postCount repliesFilter :
  Forall (fun p : IPost => is_Some (topic p)) posts →
  ∃ kept, filterByPostcount posts postCount repliesFilter = Ok kept.
Proof.
  intros Htopic. unfold filterByPostcount.
  destruct (truthy_str postCount); [|by eexists].
  rewrite Forall_forall in Htopic.
  case_bool_decide.
  - eexists. apply (filter_throwing_total _
      (fun p : IPost => num_geb (t_postcount <$> topic p) (parseInt_opt postCount))).
    intros p [t Ht]%Htopic. unfold topic_postcount. by rewrite Ht.
  - eexists. apply (filter_throwing_total _
      (fun p : IPost => num_leb (t_postcount <$> topic p) (parseInt_opt postCount))).
    intros p [t Ht]%Htopic. unfold topic_postcount. by rewrite Ht.
Qed.

Lemma filterByTimerange_sublist now posts timeRange timeFilter :
  filterByTimerange now posts timeRange timeFilter `sublist_of` posts.
Proof.
  unfold filterByTimerange.
  destruct (truthy_str timeRange); [|reflexivity].
  case_bool_decide; apply filter_bool_sublist.
Qed.

Lemma filterByTags_sublist posts hasTags :
  filterByTags posts hasTags `sublist_of` posts.
Proof.
  unfold filterByTags.
  destruct hasTags as [[s|[|tag tags]]|]; try reflexivity.
  apply filter_bool_sublist.
Qed.

(** C4. The merged candidate list is the truthy main-item ids followed by
    the truthy direct post ids, a subsequence of [mainPids ++ pids]; each of
    the three filters returns a subsequence of its input; and on hydrated
    posts (every one carries its topic) the whole filter stage runs and
    yields a subsequence of its input. *)
Theorem filter_stage_preserves_order (mainPids pids : list jsid) (now : Z)
    (posts : list IPost) (data : ISearchData) :
  Forall (fun p : IPost => is_Some (topic p)) posts →
  mergePids mainPids pids = filter Boolean mainPids ++ filter Boolean pids
  ∧ mergePids mainPids pids `sublist_of` mainPids ++ pids
  ∧ Forall Boolean (mergePids mainPids pids)
  ∧ (∀ l postCount repliesFilter kept,
       filterByPostcount l postCount repliesFilter = Ok kept →
       kept `sublist_of` l)
  ∧ (∀ l timeRange timeFilter,
       filterByTimerange now l timeRange timeFilter `sublist_of` l)
  ∧ (∀ l hasTags, filterByTags l hasTags `sublist_of` l)
  ∧ (∃ kept,
       filterByPostcount posts (replies data) (repliesFilter data) = Ok kept
       ∧ filterByTags
           (filterByTimerange now kept (timeRange data) (timeFilter data))
           (hasTags data) `sublist_of` posts).
Proof.
  intros Htopic. repeat split.
  - apply mergePids_app.
  - apply sublist_filter.
  - apply mergePids_truthy.
  - apply filterByPostcount_sublist.
  - apply filterByTimerange_sublist.
  - apply filterByTags_sublist.
  - destruct (filterByPostcount_total posts (replies data) (repliesFilter data)
                Htopic) as [kept Hkept].
    exists kept. split; [done|].
    etrans; [apply filterByTags_sublist|].
    etrans; [apply filterByTimerange_sublist|].
    by eapply filterByPostcount_sublist.
Qed.

Lemma filter_stage_preserves_order_witness :
  ∃ kept,
    filterByPostcount samplePosts (Some "5") (Some "atleast") = Ok kept
    ∧ filterByTags (filterByTimerange 3600150 kept (Some "3600") (Some "newer"))
                   (Some (Many ["a"])) `sublist_of` samplePosts.
Proof.
  refine (proj2 (proj2 (proj2 (proj2 (proj2 (proj2
    (filter_stage_preserves_order [None; Some 3] [Some 0; Some 4] 3600150
       samplePosts filteringQuery _))))))).
  repeat constructor; by eexists.
Defined.

(** The filters on the sample posts: posts 1 and 4 have at least five
    replies, a time stamp in the last hour and the tag ["a"]. *)
Example filter_stage_sample :
  rbind (filterByPostcount samplePosts (Some "5") (Some "atleast")) (fun kept =>
    Ok (pids_of (filterByTags
                   (filterByTimerange 3600150 kept (Some "3600") (Some "newer"))
                   (Some (Many ["a"])))))
  = Ok [1; 4].
Proof. reflexivity. Qed.

(** The examples of the specification for the three filters. *)
Example filterByTags_sample :
  pids_of (filterByTags samplePosts (Some (Many ["a"; "b"]))) = [2; 4].
Proof. reflexivity. Qed.

Example filterByPostcount_sample :
  rbind (filterByPostcount samplePosts (Some "5") (Some "atleast"))
        (fun kept => Ok (pids_of kept)) = Ok [1; 3; 4]
  ∧ rbind (filterByPostcount samplePosts (Some "5") None)
          (fun kept => Ok (pids_of kept)) = Ok [1; 2; 4].
Proof. split; reflexivity. Qed.

Example filterByTimerange_sample :
  pids_of (filterByTimerange 3600250 samplePosts (Some "3600") (Some "newer"))
    = [2; 4]
  ∧ pids_of (filterByTimerange 3600250 samplePosts (Some "3600") None)
    = [1; 3].
Proof. split; reflexivity. Qed.

(** ** Sorting *)

Lemma post_get_timestamp (p : IPost) : post_get "timestamp" p = VNum (timestamp p).
Proof. reflexivity. Qed.

(** On integers the coercion is exact and the comparator has the sign of
    the difference of the integers. *)
Lemma positive_times_sub direction (x y : Z) :
  positive (times direction (js_sub (VNum x) (VNum y)))
  = (0 <? direction * (x - y)).
Proof.
  cbn. destruct (Z.ltb_spec 0 (direction * (x * 1 + - y * 1))),
         (Z.ltb_spec 0 (direction * (x - y))); try done; nia.
Qed.

Lemma compare_field_timestamp direction (post_1 post_2 : IPost) :
  ∃ c, compare_field direction "timestamp" post_1 post_2 = Ok c
       ∧ after c
         = (0 <? direction * (timestamp post_2 - timestamp post_1)).
Proof.
  eexists. split; [reflexivity|].
  unfold after. rewrite !post_get_timestamp. apply positive_times_sub.
Qed.

(** A sort that returns has only reordered the posts. *)
Lemma sortPosts_Permutation env posts data sorted data' :
  sortPosts env posts data = Ok (sorted, data') → sorted ≡ₚ posts.
Proof.
  unfold sortPosts.
  destruct (negb (nonempty posts) || bool_decide (sortBy data = Some "relevance")).
  { by intros [= <- _]. }
  cbn [sortBy set_sortDirection].
  destruct (sortBy data) as [sb|]; [|done].
  destruct (split "." sb) as [|f0 [|f1 [|f2 fs]]].
  - by intros [= <- _].
  - destruct (sort _ posts) as [r|] eqn:Hr; simpl; [|done].
    intros [= <- _]. by eapply sort_Permutation.
  - destruct (negb _); [by intros [= <- _]|].
    destruct (sort _ posts) as [r|] eqn:Hr; simpl; [|done].
    intros [= <- _]. by eapply sort_Permutation.
  - by intros [= <- _].
Qed.

(** C9. Sorting a non-empty list of hydrated posts by ["timestamp"]
    returns a permutation of the list; its time stamps never increase when
    the direction is ["desc"] or absent, and never decrease when the
    direction is ["asc"]. *)
Theorem sortPosts_by_timestamp (env : Env) (posts : list IPost)
    (data : ISearchData) :
  posts ≠ [] →
  sortBy data = Some "timestamp" →
  ∃ sorted data',
    sortPosts env posts data = Ok (sorted, data')
    ∧ sorted ≡ₚ posts
    ∧ (or_str (sortDirection data) "desc" = "desc" →
       StronglySorted Z.ge (timestamps_of sorted))
    ∧ (sortDirection data = Some "asc" →
       StronglySorted Z.le (timestamps_of sorted)).
Proof.
  intros Hne Hsort. unfold sortPosts.
  destruct posts as [|p0 posts']; [done|]. set (posts := p0 :: posts').
  cbn [nonempty negb orb sortBy sortDirection set_sortDirection].
  rewrite Hsort. rewrite bool_decide_eq_false_2 by discriminate.
  change (split "." "timestamp") with ["timestamp"].
  set (dir := or_str (sortDirection data) "desc").
  set (direction := if bool_decide (Some dir = Some "desc") then 1 else -1).
  assert (Hdir : (dir = "desc" ∧ direction = 1) ∨ (dir ≠ "desc" ∧ direction = -1)).
  { unfold direction. case_bool_decide as H; [left|right]; split; congruence. }
  destruct Hdir as [[Hd ->]|[Hd ->]].
  - destruct (sort_spec (compare_field 1 "timestamp")
                (fun a b : IPost => timestamp a >= timestamp b)) with (l := posts)
      as (r & Hr & Hp & Hs).
    { intros a b c. lia. }
    { intros a b.
      destruct (compare_field_timestamp 1 a b) as (c & Hc & Hafter).
      exists c. split; [done|]. rewrite Hafter.
      destruct (Z.ltb_spec 0 (1 * (timestamp b - timestamp a))); lia. }
    rewrite Hr. simpl. eexists _, _. split; [done|]. split; [done|]. split.
    + intros _. unfold timestamps_of.
      by apply (StronglySorted_fmap _
                  (fun a b : IPost => timestamp a >= timestamp b) Z.ge).
    + intros Hasc. unfold dir in Hd. rewrite Hasc in Hd. discriminate Hd.
  - destruct (sort_spec (compare_field (-1) "timestamp")
                (fun a b : IPost => timestamp a <= timestamp b)) with (l := posts)
      as (r & Hr & Hp & Hs).
    { intros a b c. lia. }
    { intros a b.
      destruct (compare_field_timestamp (-1) a b) as (c & Hc & Hafter).
      exists c. split; [done|]. rewrite Hafter.
      destruct (Z.ltb_spec 0 (-1 * (timestamp b - timestamp a))); lia. }
    rewrite Hr. simpl. eexists _, _. split; [done|]. split; [done|]. split.
    + intros Hdesc. done.
    + intros _. unfold timestamps_of.
      by apply (StronglySorted_fmap _
                  (fun a b : IPost => timestamp a <= timestamp b) Z.le).
Qed.

Lemma sortPosts_by_timestamp_witness :
  ∃ sorted data',
    sortPosts emptyEnv samplePosts timestampQuery = Ok (sorted, data')
    ∧ sorted ≡ₚ samplePosts
    ∧ (or_str (sortDirection timestampQuery) "desc" = "desc" →
       StronglySorted Z.ge (timestamps_of sorted))
    ∧ (sortDirection timestampQuery = Some "asc" →
       StronglySorted Z.le (timestamps_of sorted)).
Proof.
  apply (sortPosts_by_timestamp emptyEnv samplePosts timestampQuery).
  - intros H; discriminate H.
  - reflexivity.
Defined.

Example sortPosts_sample :
  (rbind (sortPosts emptyEnv samplePosts timestampQuery)
         (fun r => Ok (timestamps_of (fst r))) = Ok [400; 300; 200; 100])
  ∧ (rbind (sortPosts emptyEnv samplePosts
                      (set_sortDirection "asc" timestampQuery))
           (fun r => Ok (timestamps_of (fst r))) = Ok [100; 200; 300; 400]).
Proof. split; reflexivity. Qed.

(** ** Inverting computations that returned *)

Lemma bind_Ok_inv {A B} (m : M A) (f : A -> M B) t b :
  m ≫= f = (t, Ok b) →
  ∃ t1 a t2, m = (t1, Ok a) ∧ f a = (t2, Ok b) ∧ t = t1 ++ t2.
Proof.
  unfold mbind, M_bind, bind. destruct m as [t1 [a|e]]; [|done].
  destruct (f a) as [t2 r] eqn:Hf. intros [= <- ->].
  by exists t1, a, t2.
Qed.

Lemma call_Ok_inv {A} e (r : result A) t a :
  call e r = (t, Ok a) → r = Ok a ∧ t = [e].
Proof. by intros [= <- ->]. Qed.


Lemma lift_Ok_inv {A} (r : result A) t a :
  lift r = (t, Ok a) → r = Ok a ∧ t = [].
Proof. by intros [= <- ->]. Qed.

Lemma ret_Ok_inv {A} (x : A) t a : (mret x : M A) = (t, Ok a) → x = a ∧ t = [].
Proof. by intros [= <- ->]. Qed.

Lemma all2_Ok_inv {A B} (m1 : M A) (m2 : M B) t a b :
  all2 m1 m2 = (t, Ok (a, b)) →
  ∃ t1 t2, m1 = (t1, Ok a) ∧ m2 = (t2, Ok b) ∧ t = t1 ++ t2.
Proof.
  unfold all2. destruct m1 as [t1 [a'|e1]], m2 as [t2 [b'|e2]]; try done.
  intros [= <- -> ->]. by exists t1, t2.
Qed.

(** ** What hydration keeps *)

(** Every post [getMatchedPosts] returns is a row the post store answered
    with, is not soft-deleted, and carries a topic that is not
    soft-deleted. *)
Lemma getMatchedPosts_live env pids data t matched :
  getMatchedPosts env pids data = (t, Ok matched) →
  ∃ rows,
    posts_getPostsFields env pids postFields = Ok rows ∧
    ∀ p : IPost, p ∈ matched →
      Some (fields p) ∈ rows ∧ deleted p = 0 ∧
      ∃ tp, topic p = Some tp ∧ t_deleted tp = 0.
Proof.
  unfold getMatchedPosts. intros H.
  apply bind_Ok_inv in H as (t1 & rows & t2 & Hrows & H & _).
  apply call_Ok_inv in Hrows as [Hrows _].
  exists rows. split; [done|].
  apply bind_Ok_inv in H as (t3 & [users topics] & t4 & _ & H & _).
  apply ret_Ok_inv in H as [<- _].
  intros p [Hp Hlive]%filter_bool_elem_of.
  apply list_elem_of_fmap in Hp as (pf & -> & Hpf).
  apply list_elem_of_omap in Hpf as (row & Hrow & Hlp).
  destruct row as [row|]; [|done]. simpl in Hlp.
  destruct (Z.eqb_spec (deleted row) 0) as [Hdel|]; [|done].
  injection Hlp as ->. split; [done|]. split; [done|].
  unfold has_live_topic in Hlive.
  destruct (topic _) as [tp|]; [|done].
  exists tp. split; [done|]. by apply Z.eqb_eq.
Qed.

(** When the topic store answers position by position from [topicStore],
    the topic a surviving post carries is the stored topic of its own [tid]:
    a post whose container is missing or soft-deleted does not survive. *)
Lemma getMatchedPosts_container env pids data t matched
    (topicStore : Z -> option ITopicData) :
  (∀ tids, topics_getTopicsData env tids = Ok (map topicStore tids)) →
  getMatchedPosts env pids data = (t, Ok matched) →
  ∀ p : IPost, p ∈ matched →
    ∃ td, topicStore (tid p) = Some td ∧ td_deleted td = 0.
Proof.
  intros Hstore H. unfold getMatchedPosts in H.
  apply bind_Ok_inv in H as (t1 & rows & t2 & _ & H & _).
  set (live := omap live_post rows) in H.
  set (tids := uniq (map tid live)) in H.
  apply bind_Ok_inv in H as (t3 & [users topics] & t4 & Hall & H & _).
  apply ret_Ok_inv in H as [<- _].
  apply all2_Ok_inv in Hall as (t5 & t6 & _ & Htopics & _).
  unfold getTopics in Htopics.
  apply bind_Ok_inv in Htopics as (t7 & topicsData & t8 & Hcall & Htopics & _).
  apply call_Ok_inv in Hcall as [Hcall _]. rewrite Hstore in Hcall.
  injection Hcall as <-.
  apply bind_Ok_inv in Htopics as (t9 & cats & t10 & _ & Htopics & _).
  apply ret_Ok_inv in Htopics as [<- _].
  rewrite map_map.
  set (val := fun x => enrich_topic cats _ <$> topicStore x).
  intros p [Hp Hlive]%filter_bool_elem_of.
  apply list_elem_of_fmap in Hp as (pf & -> & Hpf).
  unfold has_live_topic, enrich_post in Hlive. cbn [topic] in Hlive.
  rewrite (zipObject_lookup toString_num val tids (tid pf)) in Hlive.
  - unfold val in Hlive.
    change (tid (enrich_post _ _ pf)) with (tid pf).
    destruct (topicStore (tid pf)) as [td|] eqn:Htd; [|done].
    exists td. split; [done|]. by apply Z.eqb_eq.
  - intros x _ Hx. unfold toString_num in Hx.
    by apply (inj pretty) in Hx as ->.
  - unfold tids. apply uniq_elem_of. by apply list_elem_of_fmap_2.
Qed.

(** When something survives hydration and no listener rewrites the
    result, every id [filterAndSort] returns is the id of a post that
    survived hydration. *)
Lemma filterAndSort_ids_of_matched env pids data t0 matched t ids data' :
  fast_path env data = false →
  on_filterAndSort (plugins env) = [] →
  getMatchedPosts env pids data = (t0, Ok matched) →
  matched ≠ [] →
  filterAndSort env pids data = (t, Ok (ids, data')) →
  ∀ i, i ∈ ids → ∃ p : IPost, p ∈ matched ∧ i = Some (pid p).
Proof.
  intros Hfast Hhook Hmatched Hne H. unfold filterAndSort in H.
  rewrite Hfast, Hmatched in H.
  apply bind_Ok_inv in H as (t1 & matched' & t2 & [= <- <-] & H & _).
  destruct matched as [|p0 matched']; [done|]. set (matched := p0 :: matched') in *.
  cbn [nonempty negb] in H.
  apply bind_Ok_inv in H as (t3 & kept1 & t4 & Hk1 & H & _).
  apply lift_Ok_inv in Hk1 as [Hk1 _].
  apply bind_Ok_inv in H as (t5 & [sorted data1] & t6 & Hs & H & _).
  apply lift_Ok_inv in Hs as [Hs _].
  rewrite Hhook in H.
  apply bind_Ok_inv in H as (t7 & result & t8 & Hf & H & _).
  apply call_Ok_inv in Hf as [[= <-] _].
  apply ret_Ok_inv in H as [[= <- _] _].
  intros i Hi. cbn [fs_posts] in Hi.
  apply list_elem_of_fmap in Hi as (op & -> & Hop).
  apply list_elem_of_fmap in Hop as (p & -> & Hp).
  exists p. split; [|done].
  rewrite (sortPosts_Permutation _ _ _ _ _ Hs) in Hp.
  eapply elem_of_sublist; [exact Hp|].
  etrans; [apply filterByTags_sublist|].
  etrans; [apply filterByTimerange_sublist|].
  by eapply filterByPostcount_sublist.
Qed.

(** ** The early return of the filter and sort stage *)

(** When nothing survives hydration, lines 169-171 return the candidate
    list as it came. *)
Lemma filterAndSort_nothing_matched env pids data t :
  fast_path env data = false →
  getMatchedPosts env pids data = (t, Ok []) →
  filterAndSort env pids data = (t, Ok (pids, data)).
Proof.
  intros Hfast Hmatched. unfold filterAndSort. rewrite Hfast, Hmatched.
  unfold mbind, M_bind, bind. cbn. by rewrite app_nil_r.
Qed.

(** C3: off the fast path, a candidate that is soft-deleted, or whose
    topic is missing or soft-deleted, is excluded from the result. The code
    breaks this when no candidate survives hydration. With the query sorted
    by time stamp the stage is not on its fast path. The only candidate,
    post 1, is soft-deleted, so nothing survives, and line 170 returns the
    candidate list as it came: the soft-deleted post is in the result. The
    same happens to post 4, whose topic is missing, and post 5, whose topic
    is soft-deleted. Next to the live post 3 the same candidates are
    dropped. *)
Theorem filterAndSort_returns_deleted_candidates :
  fast_path forumEnv timestampQuery = false
  ∧ (deleted <$> forumPosts (Some 1)) = Some 1
  ∧ snd (filterAndSort forumEnv [Some 1] timestampQuery)
    = Ok ([Some 1], timestampQuery)
  ∧ snd (filterAndSort forumEnv [Some 1; Some 4; Some 5] timestampQuery)
    = Ok ([Some 1; Some 4; Some 5], timestampQuery)
  ∧ rbind (snd (filterAndSort forumEnv [Some 1; Some 4; Some 5; Some 3]
                              timestampQuery))
          (fun r => Ok (fst r))
    = Ok [Some 3].
Proof. repeat split; reflexivity. Qed.

(** ** Page size *)

Lemma or_num_nonzero o d : d ≠ 0 → or_num o d ≠ 0.
Proof.
  intros Hd. unfold or_num. destruct o as [n|]; [|done].
  by destruct (Z.eqb_spec n 0).
Qed.

(** C5, as the code has it. The effective page size is
    [min(itemsPerPage || 10, 100)]: it never exceeds 100 and is never 0;
    500 becomes 100; an absent value (or 0) becomes 10; a request of at
    least 1 is used up to 100 and stays in [[1,100]]; there is no lower
    clamp, a negative request is used as it is. *)
Theorem effectiveItemsPerPage_bounds (data : ISearchData) :
  effectiveItemsPerPage data <= 100
  ∧ effectiveItemsPerPage data ≠ 0
  ∧ (itemsPerPage data = Some 500 → effectiveItemsPerPage data = 100)
  ∧ (truthy_num (itemsPerPage data) = false → effectiveItemsPerPage data = 10)
  ∧ (∀ n, itemsPerPage data = Some n → 1 <= n →
       effectiveItemsPerPage data = Z.min n 100
       ∧ 1 <= effectiveItemsPerPage data <= 100)
  ∧ (∀ n, itemsPerPage data = Some n → n < 0 → effectiveItemsPerPage data = n).
Proof.
  unfold effectiveItemsPerPage.
  split; [lia|]. split.
  { pose proof (or_num_nonzero (itemsPerPage data) 10). lia. }
  split; [by intros ->|]. split.
  { unfold truthy_num, or_num. destruct (itemsPerPage data) as [n|]; [|done].
    by destruct (n =? 0). }
  split.
  - intros n -> Hn. unfold or_num. destruct (Z.eqb_spec n 0); lia.
  - intros n -> Hn. unfold or_num. destruct (Z.eqb_spec n 0); lia.
Qed.

Lemma effectiveItemsPerPage_bounds_witness :
  effectiveItemsPerPage (set_page None (Some 500) emptyQuery) = 100
  ∧ effectiveItemsPerPage emptyQuery = 10
  ∧ effectiveItemsPerPage (set_page None (Some 7) emptyQuery) = 7
  ∧ effectiveItemsPerPage (set_page None (Some (-5)) emptyQuery) = -5.
Proof.
  split; [|split; [|split]].
  - destruct (effectiveItemsPerPage_bounds (set_page None (Some 500) emptyQuery))
      as (_ & _ & H & _).
    apply H. reflexivity.
  - destruct (effectiveItemsPerPage_bounds emptyQuery) as (_ & _ & _ & H & _).
    apply H. reflexivity.
  - destruct (effectiveItemsPerPage_bounds (set_page None (Some 7) emptyQuery))
      as (_ & _ & _ & _ & H & _).
    destruct (H 7) as [H7 _]; [reflexivity | lia | exact H7].
  - destruct (effectiveItemsPerPage_bounds (set_page None (Some (-5)) emptyQuery))
      as (_ & _ & _ & _ & _ & H).
    apply (H (-5)); [reflexivity | lia].
Defined.

(** C5 as the spec states it fails: a request of [-5] is used as the page
    size, for the page count and for the slice. *)
Lemma effectiveItemsPerPage_below_one :
  let data := set_page (Some 1) (Some (-5)) emptyQuery in
  effectiveItemsPerPage data = -5
  ∧ ¬ (1 <= effectiveItemsPerPage data <= 100)
  ∧ fst (pagedResult emptyEnv data (metadataOf (idRange 1 25) data))
    = [EGetPostSummaryByPids (idRange 1 20) None;
       EFire "filter:search.contentGetResult"].
Proof.
  repeat split.
  intros [H _]. by vm_compute in H.
Qed.

(** ** Page count and page slice *)

(** For a positive page size, [ceil_div n size] is the least number of
    pages that hold [n] items. *)
Lemma ceil_div_least (n size : Z) :
  1 <= size →
  (ceil_div n size - 1) * size < n <= ceil_div n size * size.
Proof.
  intros Hsize. unfold ceil_div.
  pose proof (Z.div_mod (- n) size) as Hdm.
  pose proof (Z.mod_pos_bound (- n) size) as Hmod.
  nia.
Qed.

Lemma pageSlice_page data size pids p :
  page data = Some p → 1 <= p → 0 <= size →
  pageSlice data size pids
  = take (Z.to_nat size) (drop (Z.to_nat ((p - 1) * size)) pids).
Proof.
  intros Hp Hge Hsize. unfold pageSlice. rewrite Hp.
  destruct (Z.eqb_spec p 0); [lia|].
  rewrite Z.max_r by lia.
  rewrite slice_nonneg by nia.
  do 2 f_equal. lia.
Qed.



Example pagination_sample :
  effectiveItemsPerPage (set_page (Some 2) (Some 10) emptyQuery) = 10
  ∧ computePageCount 25 10 = 3
  ∧ pageSlice (set_page (Some 2) (Some 10) emptyQuery) 10 (idRange 0 25)
    = idRange 10 10
  ∧ computePageCount 0 10 = 1.
Proof. repeat split. Qed.

(** ** Pages up to 1 *)

(** C10, as the code has it. A page value that is 1 or negative makes the
    slice start at offset 0: the page is the one of page 1. A page value
    of 0 is falsy, so the guard of line 112 treats it as no page at all
    and the list is not sliced. *)
Theorem pageSlice_page_at_most_one (data : ISearchData) (size : Z)
    (pids : list jsid) (p : Z) :
  page data = Some p →
  p <= 1 →
  if p =? 0 then pageSlice data size pids = pids
  else pageSlice data size pids = slice 0 size pids
       ∧ pageSlice data size pids
         = pageSlice (set_page (Some 1) (itemsPerPage data) data) size pids.
Proof.
  intros Hp Hle. unfold pageSlice. rewrite Hp. cbn [page set_page].
  destruct (Z.eqb_spec p 0) as [->|Hne]; [done|].
  change (1 =? 0) with false. cbn iota.
  rewrite Z.max_l by lia. by replace (Z.max 0 (1 - 1)) with 0 by lia.
Qed.

Lemma pageSlice_page_at_most_one_witness :
  pageSlice (set_page (Some (-3)) (Some 2) emptyQuery) 2 (idRange 1 5)
  = slice 0 2 (idRange 1 5)
  ∧ pageSlice (set_page (Some (-3)) (Some 2) emptyQuery) 2 (idRange 1 5)
    = pageSlice (set_page (Some 1) (Some 2) emptyQuery) 2 (idRange 1 5).
Proof.
  apply (pageSlice_page_at_most_one (set_page (Some (-3)) (Some 2) emptyQuery)
           2 (idRange 1 5) (-3)); [reflexivity | lia].
Defined.

(** C10 as stated fails for page 0: it is not the page of page 1 but the
    whole list. *)
Lemma page_zero_is_not_page_one :
  let zero := set_page (Some 0) (Some 2) emptyQuery in
  let one := set_page (Some 1) (Some 2) emptyQuery in
  fst (pagedResult emptyEnv zero (metadataOf (idRange 1 5) zero))
  = [EGetPostSummaryByPids (idRange 1 5) None;
     EFire "filter:search.contentGetResult"]
  ∧ fst (pagedResult emptyEnv one (metadataOf (idRange 1 5) one))
    = [EGetPostSummaryByPids (idRange 1 2) None;
       EFire "filter:search.contentGetResult"]
  ∧ pageSlice zero 2 (idRange 1 5) ≠ pageSlice one 2 (idRange 1 5).
Proof.
  repeat split. intros H. discriminate H.
Qed.

(** ** The scoping token bypasses the dispatch *)

Lemma avoids_not_elem_of P t e : avoids P t → P e = true → e ∉ t.
Proof.
  intros Ht He Hin. unfold avoids in Ht. rewrite Forall_forall in Ht.
  specialize (Ht e Hin). congruence.
Qed.

(** C7. When the text of the query is ["in:topic-"], a non-empty run of
    digits, a blank and a remainder, the content search never queries the
    text index (neither the post index nor the topic index) and never scans
    the bookmarks; the only per-topic search it makes is on those digits
    with the remainder as text; and it does make that search whenever scope
    resolution returns. *)
Theorem inTopic_bypasses_dispatch (env : Env) (data : ISearchData)
    (digits rest : string) :
  query data = Some ("in:topic-" +:+ digits +:+ " " +:+ rest) →
  digits ≠ "" →
  all_digits digits = true →
  let t := fst (searchInContent env data) in
  let data' := set_uid (or_num (uid data) 0) data in
  (∀ idx text mode, EIndexQuery idx text mode ∉ t)
  ∧ (∀ key size, EBookmarks key size ∉ t)
  ∧ (∀ tid term, ETopicSearch tid term ∈ t → tid = digits ∧ term = rest)
  ∧ (∀ scoped,
       snd (all2 (getSearchCids env data') (getSearchUids env data')) = Ok scoped →
       ETopicSearch digits rest ∈ t).
Proof.
  intros Hq Hne Hd t data'.
  destruct (searchInContent_inTopic_trace is_search_call env) with
    (data := data) (digits := digits) (rest := rest) as (t3 & Ht & H1 & H3);
    try done.
  fold data' in Ht, H1. fold t in Ht.
  set (scope := all2 (getSearchCids env data') (getSearchUids env data')) in *.
  assert (Hsearch : ∀ e, is_search_call e = true → e ∈ t →
            e = ETopicSearch digits rest).
  { intros e He Hin. rewrite Ht in Hin.
    apply elem_of_app in Hin as [Hin|Hin].
    - by apply (avoids_not_elem_of _ _ _ H1 He) in Hin.
    - destruct (snd scope); [|by apply elem_of_nil in Hin].
      apply elem_of_cons in Hin as [->|Hin]; [done|].
      by apply (avoids_not_elem_of _ _ _ H3 He) in Hin. }
  split; [|split; [|split]].
  - intros idx text mode Hin. by apply Hsearch in Hin.
  - intros key size Hin. by apply Hsearch in Hin.
  - intros tid term Hin. apply Hsearch in Hin; [|done]. by injection Hin.
  - intros scoped Hscope. rewrite Ht, Hscope.
    apply elem_of_app. right. apply list_elem_of_here.
Qed.

Lemma inTopic_bypasses_dispatch_witness :
  let t := fst (searchInContent emptyEnv inTopicQuery) in
  (∀ idx text mode, EIndexQuery idx text mode ∉ t)
  ∧ (∀ key size, EBookmarks key size ∉ t)
  ∧ (∀ tid term, ETopicSearch tid term ∈ t → tid = "42" ∧ term = "hello")
  ∧ ETopicSearch "42" "hello" ∈ t.
Proof.
  intros t.
  destruct (inTopic_bypasses_dispatch emptyEnv inTopicQuery "42" "hello")
    as (Hidx & Hbm & Honly & Hruns);
    [reflexivity | intros H; discriminate H | reflexivity |].
  split; [exact Hidx|]. split; [exact Hbm|]. split; [exact Honly|].
  apply (Hruns ([], [])). reflexivity.
Defined.

Example inTopic_sample :
  fst (searchInContent emptyEnv inTopicQuery)
  = [ETopicSearch "42" "hello"; EGetMainPids [];
     EPrivilegesFilter "topics:read" [] (Some 0);
     EFire "filter:search.inContent"; EGetPostSummaryByPids [] (Some 0);
     EFire "filter:search.contentGetResult"]
  ∧ fst (searchInContent emptyEnv helloQuery)
    = [EIndexQuery "post" (Some "hello") "all";
       EIndexQuery "topic" (Some "hello") "all"; EGetMainPids [];
       EPrivilegesFilter "topics:read" [] (Some 0);
       EFire "filter:search.inContent"; EGetPostSummaryByPids [] (Some 0);
       EFire "filter:search.contentGetResult"].
Proof. split; vm_compute; reflexivity. Qed.

(** ** Matching bookmarks against the text *)

Lemma snd_bind {A B} (m : M A) (f : A -> M B) :
  snd (m ≫= f)
  = match snd m with Ok a => snd (f a) | Throw e => Throw e end.
Proof.
  unfold mbind, M_bind, bind. destruct m as [t [a|e]]; simpl; [|done].
  by destruct (f a).
Qed.

Lemma map_throwing_total {A B} (f : A -> result B) (g : A -> B) (l : list A) :
  (∀ x, x ∈ l → f x = Ok (g x)) → map_throwing f l = Ok (map g l).
Proof.
  induction l as [|x l IH]; simpl; intros H; [done|].
  rewrite (H x) by apply list_elem_of_here. simpl.
  rewrite IH by (intros y Hy; apply H; by apply list_elem_of_further).
  done.
Qed.

(** The code's token test is the matching rule of the specification. *)
Lemma tokens_match_iff matchWords tokens content title :
  tokens_match matchWords tokens content title = true
  ↔ tokens_match_spec matchWords tokens content title.
Proof.
  unfold tokens_match, tokens_match_spec, occurs.
  case_bool_decide as Hany.
  - rewrite decide_True by done. rewrite existsb_exists.
    split; intros (token & Hin & Hhit); exists token.
    + rewrite list_elem_of_In. split; [done|].
      apply orb_true_iff in Hhit. by rewrite <- !includes_iff.
    + rewrite <- list_elem_of_In. split; [done|].
      apply orb_true_iff. by rewrite !includes_iff.
  - rewrite decide_False by done. rewrite forallb_forall.
    split; intros H token Hin.
    + rewrite <- !includes_iff. apply orb_true_iff, H.
      by apply list_elem_of_In.
    + apply orb_true_iff. rewrite !includes_iff. apply H.
      by apply list_elem_of_In.
Qed.

Section Bookmarks.
Variable env : Env.
Variable data : ISearchData.
Variable q : string.
Variable pids : list jsid.
(** What the object store holds: the content and the topic of every
    bookmarked post, the title of every topic. *)
Variable content_of : jsid -> string.
Variable tid_of : jsid -> Z.
Variable title_of : Z -> string.

Let postKeys := map (fun pid => "post:" +:+ toString_id pid "null") pids.
Let tids := uniq (map (fun pid => VNum (tid_of pid)) pids).
Let topicKeys := map (fun tid => "topic:" +:+ toString tid) tids.
Let post_row (pid : jsid) : option JsObj :=
  Some [("content", VStr (content_of pid)); ("tid", VNum (tid_of pid))].
Let title_row (tid : JsVal) : option JsObj :=
  match tid with
  | VNum n => Some [("title", VStr (title_of n))]
  | _ => None
  end.

(** The store answers every key, position by position, with the fields
    that were asked for. *)
Hypothesis posts_answer :
  db_getObjectsFields env postKeys ["content"; "tid"]
  = Ok (map post_row pids).
Hypothesis topics_answer :
  db_getObjectsFields env topicKeys ["title"] = Ok (map title_row tids).

Let keep (pid : jsid) : bool :=
  tokens_match (matchWords data) (split " " q) (content_of pid)
               (title_of (tid_of pid)).

Lemma row_tids :
  map_throwing row_tid (map post_row pids)
  = Ok (map (fun pid => VNum (tid_of pid)) pids).
Proof.
  rewrite (map_throwing_total _ (fun row =>
             match row with Some o => obj_get "tid" o | None => VUndef end)).
  - by rewrite map_map.
  - intros row (pid & -> & _)%list_elem_of_fmap. reflexivity.
Qed.

Lemma topic_of_bookmark pid :
  pid ∈ pids →
  zipObject (map toString tids) (map title_row tids)
    !! toString (VNum (tid_of pid))
  = Some (title_row (VNum (tid_of pid))).
Proof.
  intros Hpid. apply (zipObject_lookup toString title_row).
  - intros x Hx Hkey. unfold tids in Hx.
    apply uniq_elem_of, list_elem_of_fmap in Hx as (pid' & -> & _).
    cbn [toString] in Hkey. unfold toString_num in Hkey.
    by apply (inj pretty) in Hkey as ->.
  - unfold tids. apply uniq_elem_of.
    by apply (list_elem_of_fmap_2 (fun pid => VNum (tid_of pid))).
Qed.

Lemma filterByText_result :
  snd (filterByText env data q pids) = Ok (List.filter keep pids).
Proof.
  unfold filterByText. fold postKeys.
  rewrite snd_bind. cbn [call snd]. rewrite posts_answer.
  rewrite snd_bind. cbn [lift snd]. rewrite row_tids.
  fold tids. fold topicKeys.
  rewrite snd_bind. cbn [call snd]. rewrite topics_answer.
  rewrite snd_bind. cbn [lift snd].
  rewrite (filter_throwing_total _ (fun ip => keep (snd ip))).
  - cbn [mret M_ret ret snd]. f_equal.
    rewrite (filter_bool_map_snd keep). by rewrite map_snd_imap_pair.
  - intros [i pid] Hin. cbn [fst snd].
    apply elem_of_lookup_imap in Hin as (i' & pid' & [= <- <-] & Hlookup).
    unfold bookmark_matches.
    rewrite list_lookup_fmap, Hlookup. cbn [fmap option_fmap option_map post_row].
    cbn [obj_get String.eqb Ascii.eqb Bool.eqb toString_method toString rbind].
    change (toString_num (tid_of pid)) with (toString (VNum (tid_of pid))).
    rewrite topic_of_bookmark by (by eapply list_elem_of_lookup_2).
    reflexivity.
Qed.

(** After the scope restrictions have left [pids], the batch callback is
    the text filter on them. *)
Lemma bookmarksBatch_text searchCids searchUids batch scoped :
  query data = Some q → q ≠ "" →
  (if nonempty searchCids then posts_filterPidsByCid env batch searchCids
   else Ok batch) = Ok scoped →
  (if nonempty searchUids then posts_filterPidsByUid env scoped searchUids
   else Ok scoped) = Ok pids →
  snd (bookmarksBatch env data searchCids searchUids batch)
  = snd (filterByText env data q pids).
Proof.
  intros Hq Hne Hcid Huid. unfold bookmarksBatch.
  rewrite snd_bind.
  replace (snd (if nonempty searchCids
                then call (EFilterPidsByCid batch)
                          (posts_filterPidsByCid env batch searchCids)
                else mret batch)) with (Ok scoped : result (list jsid))
    by (rewrite <- Hcid; by destruct (nonempty searchCids)).
  rewrite snd_bind.
  replace (snd (if nonempty searchUids
                then call (EFilterPidsByUid scoped)
                          (posts_filterPidsByUid env scoped searchUids)
                else mret scoped)) with (Ok pids : result (list jsid))
    by (rewrite <- Huid; by destruct (nonempty searchUids)).
  rewrite Hq. by destruct (String.eqb_spec q "").
Qed.

End Bookmarks.

(** What one run of the batch callback appends. *)
Lemma bookmarksBatch_kept (env : Env) (data : ISearchData) (q : string)
    (searchCids : list JsVal) (searchUids : list jsid)
    (batch inCategory scoped : list jsid)
    (content_of : jsid -> string) (tid_of : jsid -> Z)
    (title_of : Z -> string) :
  query data = Some q →
  q ≠ "" →
  (if nonempty searchCids then posts_filterPidsByCid env batch searchCids
   else Ok batch) = Ok inCategory →
  (if nonempty searchUids then posts_filterPidsByUid env inCategory searchUids
   else Ok inCategory) = Ok scoped →
  db_getObjectsFields env
    (map (fun pid => "post:" +:+ toString_id pid "null") scoped)
    ["content"; "tid"]
  = Ok (map (fun pid => Some [("content", VStr (content_of pid));
                              ("tid", VNum (tid_of pid))]) scoped) →
  (let tids := uniq (map (fun pid => VNum (tid_of pid)) scoped) in
   db_getObjectsFields env (map (fun tid => "topic:" +:+ toString tid) tids)
                       ["title"]
   = Ok (map (fun tid => match tid with
                         | VNum n => Some [("title", VStr (title_of n))]
                         | _ => None
                         end) tids)) →
  snd (bookmarksBatch env data searchCids searchUids batch)
  = Ok (List.filter
          (fun pid => tokens_match (matchWords data) (split " " q)
                        (content_of pid) (title_of (tid_of pid)))
          scoped).
Proof.
  intros Hq Hne Hcid Huid Hposts Htopics.
  rewrite (bookmarksBatch_text env data q scoped searchCids searchUids batch
             inCategory Hq Hne Hcid Huid).
  by apply (filterByText_result env data q scoped content_of tid_of title_of).
Qed.

(** The batches are run one after the other, each appending what it
    keeps. *)
Lemma each_batch_snd (f : list jsid -> M (list jsid))
    (g : list jsid -> list jsid) batches allPids :
  (∀ b, b ∈ batches → snd (f b) = Ok (g b)) →
  snd (each_batch f batches allPids)
  = Ok (allPids ++ concat (map g batches)).
Proof.
  revert allPids. induction batches as [|b bs IH]; intros allPids Hf; simpl.
  - by rewrite app_nil_r.
  - rewrite snd_bind, (Hf b) by apply list_elem_of_here.
    rewrite IH by (intros b' Hb'; apply Hf; by apply list_elem_of_further).
    by rewrite app_assoc.
Qed.

(** ** Tokens *)

Lemma empty_token_occurs (s : string) : occurs "" s.
Proof. by exists "", s. Qed.

Lemma filter_all {A} (f : A -> bool) (l : list A) :
  (∀ x, x ∈ l → f x = true) → List.filter f l = l.
Proof.
  induction l as [|x l IH]; intros H; [done|]. simpl.
  rewrite (H x) by apply list_elem_of_here.
  f_equal. apply IH. intros y Hy. apply H. by apply list_elem_of_further.
Qed.

Lemma split_nonempty (c : ascii) (s : string) :
  ∃ w ws, split c s = w :: ws.
Proof.
  destruct s as [|a s]; cbn [split]; [by eexists _, _|].
  destruct (Ascii.eqb a c); [by eexists _, _|].
  destruct (split c s); by eexists _, _.
Qed.

Lemma split_cons (c a : ascii) (s : string) :
  ∃ w ws, split c (String a s) = w :: ws
          ∧ if Ascii.eqb a c then w = "" ∧ ws = split c s
            else ∃ w', split c s = w' :: ws ∧ w = String a w'.
Proof.
  cbn [split]. destruct (Ascii.eqb a c); [by eexists _, _|].
  destruct (split_nonempty c s) as (w' & ws & ->).
  eexists _, _. split; [done|]. by eexists.
Qed.

(** Splitting at blanks gives an empty token exactly for the empty text
    and for a text with a blank at its start, at its end, or behind
    another blank. *)
Lemma empty_token_iff (s : string) :
  "" ∈ split " " s
  ↔ s = "" ∨ starts_blank s ∨ ends_blank s ∨ occurs "  " s.
Proof.
  assert (Hends : ∀ a s', ends_blank (String a s') ↔
            (a = " "%char ∧ s' = "") ∨ ends_blank s').
  { intros a s'. split.
    - intros [[|b r] H]; injection H as -> H; [by left|right; by exists r].
    - intros [[-> ->]|[r ->]]; [by exists ""|by exists (String a r)]. }
  assert (Hocc : ∀ a s', occurs "  " (String a s') ↔
            (a = " "%char ∧ starts_blank s') ∨ occurs "  " s').
  { intros a s'. split.
    - intros ([|b pre] & post & H); injection H as -> H.
      + left. split; [done|]. by exists post.
      + right. by exists pre, post.
    - intros [[-> [r ->]]|(pre & post & ->)].
      + by exists "", r.
      + by exists (String a pre), post. }
  assert (Hnil_e : ¬ ends_blank "") by (intros [[|b r] H]; discriminate H).
  assert (Hnil_o : ¬ occurs "  " "")
    by (intros ([|b pre] & post & H); discriminate H).
  enough (H : ("" ∈ split " " s
               ↔ s = "" ∨ starts_blank s ∨ ends_blank s ∨ occurs "  " s)
              ∧ ("" ∈ tail (split " " s) ↔ ends_blank s ∨ occurs "  " s))
    by apply H.
  induction s as [|a s [IH1 IH2]].
  - split.
    + split; [by left|intros _; apply list_elem_of_here].
    + cbn. rewrite elem_of_nil. tauto.
  - destruct (split_cons " " a s) as (w & ws & Hsplit & Hcase).
    rewrite Hsplit. cbn [tail].
    rewrite Hends, Hocc.
    destruct (Ascii.eqb_spec a " ") as [->|Ha].
    + destruct Hcase as [-> ->]. split.
      * split; [intros _|intros _; apply list_elem_of_here].
        right; left. by exists s.
      * rewrite IH1. split.
        -- intros [->|[Hs|[He|Ho]]]; [by left; left| |by left; right|by right; right].
           right; left. done.
        -- intros [[[_ ->]|He]|[[_ Hs]|Ho]]; tauto.
    + destruct Hcase as (w' & Hs & ->). rewrite Hs in IH2. cbn [tail] in IH2.
      rewrite elem_of_cons, IH2. split.
      * split.
        -- intros [H|[He|Ho]]; [discriminate H| |]; right; right; tauto.
        -- intros [H|[[r H]|[[[H _]|He]|[[H _]|Ho]]]];
             try discriminate H; try (injection H as H _); try done; tauto.
      * split.
        -- intros [He|Ho]; tauto.
        -- intros [[[H _]|He]|[[H _]|Ho]]; try done; tauto.
Qed.

(** C8, as the code has it. In the bookmarks path, with a text [q], the
    tokens are the pieces of [q] between blanks: a blank at the start, at
    the end or behind another blank gives an empty token, and nothing else
    does. Let [scoped b] be what the category and author restrictions
    leave of a batch [b], and let the object store answer with the content
    and topic of every such post and the title of every topic. Then the
    search returns, batch after batch and in order, the ids of [scoped b]
    whose tokens match: with [matchWords = "any"] an id is kept exactly
    when one token occurs in the content of its post or in the title of
    its topic; with any other value, or none, exactly when every token
    does. The empty token occurs in every text: with ["any"] it keeps
    every id that is in scope, with the other modes it changes nothing. *)
Theorem bookmarks_token_match (env : Env) (data : ISearchData) (q : string)
    (searchCids : list JsVal) (searchUids : list jsid)
    (batches : list (list jsid)) (scoped : list jsid -> list jsid)
    (content_of : jsid -> string) (tid_of : jsid -> Z)
    (title_of : Z -> string) :
  query data = Some q →
  q ≠ "" →
  batch_processSortedSet env (bookmarksKey data) 500 = Ok batches →
  (∀ b, b ∈ batches → ∃ inCategory,
     (if nonempty searchCids then posts_filterPidsByCid env b searchCids
      else Ok b) = Ok inCategory
     ∧ (if nonempty searchUids
        then posts_filterPidsByUid env inCategory searchUids
        else Ok inCategory) = Ok (scoped b)) →
  (∀ b, b ∈ batches →
     db_getObjectsFields env
       (map (fun pid => "post:" +:+ toString_id pid "null") (scoped b))
       ["content"; "tid"]
     = Ok (map (fun pid => Some [("content", VStr (content_of pid));
                                 ("tid", VNum (tid_of pid))]) (scoped b))) →
  (∀ b, b ∈ batches →
     let tids := uniq (map (fun pid => VNum (tid_of pid)) (scoped b)) in
     db_getObjectsFields env (map (fun tid => "topic:" +:+ toString tid) tids)
                         ["title"]
     = Ok (map (fun tid => match tid with
                           | VNum n => Some [("title", VStr (title_of n))]
                           | _ => None
                           end) tids)) →
  let tokens := split " " q in
  let found token pid :=
    occurs token (content_of pid) ∨ occurs token (title_of (tid_of pid)) in
  ("" ∈ tokens ↔ starts_blank q ∨ ends_blank q ∨ occurs "  " q)
  ∧ ∃ keep : jsid -> bool,
      snd (searchInBookmarks env data searchCids searchUids)
      = Ok (concat (map (fun b => List.filter keep (scoped b)) batches))
      ∧ (∀ pid, keep pid = true ↔
           tokens_match_spec (matchWords data) tokens
                             (content_of pid) (title_of (tid_of pid)))
      ∧ (matchWords data = Some "any" →
         ∀ pid, keep pid = true ↔
           "" ∈ tokens ∨ ∃ token, token ∈ tokens ∧ found token pid)
      ∧ (matchWords data ≠ Some "any" →
         ∀ pid, keep pid = true ↔
           ∀ token, token ∈ tokens → token ≠ "" → found token pid)
      ∧ (matchWords data = Some "any" → "" ∈ tokens →
         snd (searchInBookmarks env data searchCids searchUids)
         = Ok (concat (map scoped batches))).
Proof.
  intros Hq Hne Hbatches Hscope Hposts Htopics tokens found.
  set (keep := fun pid => tokens_match (matchWords data) tokens
                            (content_of pid) (title_of (tid_of pid))).
  assert (Hkeep : ∀ pid, keep pid = true ↔
            tokens_match_spec (matchWords data) tokens
                              (content_of pid) (title_of (tid_of pid))).
  { intros pid. apply tokens_match_iff. }
  assert (Hrun : snd (searchInBookmarks env data searchCids searchUids)
                 = Ok (concat (map (fun b => List.filter keep (scoped b))
                                   batches))).
  { unfold searchInBookmarks. rewrite snd_bind. cbn [call snd].
    rewrite Hbatches.
    rewrite (each_batch_snd _ (fun b => List.filter keep (scoped b)));
      [done|].
    intros b Hb. destruct (Hscope b Hb) as (inCategory & Hcid & Huid).
    apply (bookmarksBatch_kept env data q searchCids searchUids b inCategory
             (scoped b) content_of tid_of title_of Hq Hne Hcid Huid
             (Hposts b Hb) (Htopics b Hb)). }
  assert (Hany : matchWords data = Some "any" →
            ∀ pid, keep pid = true ↔
              "" ∈ tokens ∨ ∃ token, token ∈ tokens ∧ found token pid).
  { intros Hmode pid. rewrite Hkeep. unfold tokens_match_spec.
    rewrite decide_True by done. split.
    - intros H. by right.
    - intros [Hempty|H]; [|done].
      exists "". split; [done|]. left. apply empty_token_occurs. }
  split; [|exists keep; repeat split].
  - unfold tokens. rewrite (empty_token_iff q). tauto.
  - exact Hrun.
  - apply Hkeep.
  - apply Hkeep.
  - apply (Hany H).
  - apply (Hany H).
  - rewrite Hkeep. unfold tokens_match_spec. rewrite decide_False by done.
    intros Hall token Hin _. by apply Hall.
  - rewrite Hkeep. unfold tokens_match_spec. rewrite decide_False by done.
    intros Hall token Hin.
    destruct (decide (token = "")) as [->|Htoken]; [|by apply Hall].
    left. apply empty_token_occurs.
  - intros Hmode Hempty. rewrite Hrun. do 2 f_equal.
    apply list_fmap_ext. intros i b _. apply filter_all.
    intros pid _. apply (Hany Hmode). by left.
Qed.

Lemma bookmarks_token_match_witness :
  ∃ keep : jsid -> bool,
    snd (searchInBookmarks (with_bookmarks [[Some 1]] petEnv)
                           (catDogQuery "any") [] [])
    = Ok (concat (map (fun b => List.filter keep b) [[Some 1]]))
    ∧ ∀ pid, keep pid = true ↔
        tokens_match_spec (Some "any") ["cat"; "dog"] "I have a cat" "Pets".
Proof.
  destruct (bookmarks_token_match (with_bookmarks [[Some 1]] petEnv)
              (catDogQuery "any") "cat dog" [] [] [[Some 1]] (fun b => b)
              (fun _ => "I have a cat") (fun _ => 7) (fun _ => "Pets"))
    as (_ & keep & Hrun & Hkeep & _).
  - reflexivity.
  - intros H; discriminate H.
  - reflexivity.
  - intros b Hb. exists b. split; reflexivity.
  - intros b Hb. apply list_elem_of_singleton in Hb as ->.
    vm_compute. reflexivity.
  - intros b Hb. apply list_elem_of_singleton in Hb as ->.
    vm_compute. reflexivity.
  - exists keep. split; [exact Hrun | exact Hkeep].
Defined.

(** C8 as the spec states it fails: the text ["dog "] has the one word
    ["dog"], which occurs neither in the content nor in the title of the
    bookmarked post; yet with ["any"] the bookmark is kept, for the blank
    at the end gives a second, empty token. *)
Lemma bookmarks_trailing_blank_keeps_all :
  query dogBlankQuery = Some "dog "
  ∧ matchWords dogBlankQuery = Some "any"
  ∧ split " " "dog " = ["dog"; ""]
  ∧ ¬ occurs "dog" "I have a cat"
  ∧ ¬ occurs "dog" "Pets"
  ∧ snd (searchInBookmarks (with_bookmarks [[Some 1]] petEnv)
                           dogBlankQuery [] []) = Ok [Some 1].
Proof.
  assert (Hno : ∀ s, includes "dog" s = false → ¬ occurs "dog" s).
  { intros s Hs Hocc. apply includes_iff in Hocc. congruence. }
  repeat split; try (vm_compute; reflexivity); by apply Hno.
Qed.

(** The example of the specification: tokens ["cat"] and ["dog"] against
    the content ["I have a cat"] keep the bookmark under ["any"] and drop
    it under ["all"] (and under an absent mode). *)
Example bookmarks_sample :
  tokens_match (Some "any") ["cat"; "dog"] "I have a cat" "Pets" = true
  ∧ tokens_match (Some "all") ["cat"; "dog"] "I have a cat" "Pets" = false
  ∧ tokens_match None ["cat"; "dog"] "I have a cat" "Pets" = false
  ∧ snd (searchInBookmarks (with_bookmarks [[Some 1]] petEnv)
                           (catDogQuery "any") [] []) = Ok [Some 1]
  ∧ snd (searchInBookmarks (with_bookmarks [[Some 1]] petEnv)
                           (catDogQuery "all") [] []) = Ok [].
Proof. repeat split; vm_compute; reflexivity. Qed.

End SearchFacts.

(* ===================================================================== *)
(** * Further properties of the pipeline *)
(* ===================================================================== *)

Module PipelineFacts.
Import Js JsArray Search JsFacts SearchFacts.

(** ** Scope resolution *)

Section UniqNoDup.
Context {A : Type} `{EqDecision A}.



End UniqNoDup.



(** A scope of explicit ids only (no ["all"], no ["watched"], children not
    asked for) is resolved without a single call: it is the requested
    entries without falsy ones and duplicates. No privilege is consulted
    for them at this point. *)
Theorem getSearchCids_explicit (env : Env) (data : ISearchData)
    (cats : list JsVal) :
  categories data = Some cats →
  VStr "all" ∉ cats →
  VStr "watched" ∉ cats →
  searchChildren data = false →
  getSearchCids env data = ([], Ok (uniq (List.filter truthy cats))).
Proof.
  intros Hcats Hall Hwatched Hchildren.
  unfold getSearchCids, getWatchedCids, getChildrenCids.
  rewrite Hcats, Hchildren.
  destruct cats as [|c cats']; [done|].
  by rewrite !bool_decide_eq_false_2 by done.
Qed.

Lemma getSearchCids_explicit_witness :
  getSearchCids emptyEnv
    (set_categories [VNum 3; VNum 0; VNum 3; VNum 5] false relevanceQuery)
  = ([], Ok [VNum 3; VNum 5]).
Proof.
  apply (getSearchCids_explicit emptyEnv _ [VNum 3; VNum 0; VNum 3; VNum 5]).
  - reflexivity.
  - refine (bool_decide_eq_false_1 _ _). reflexivity.
  - refine (bool_decide_eq_false_1 _ _). reflexivity.
  - reflexivity.
Defined.

(** ** Recognising the scoping token *)

Lemma span_digits_spec s d r :
  span_digits s = (d, r) → s = d +:+ r ∧ all_digits d = true.
Proof.
  revert d r. induction s as [|a s IH]; intros d r; cbn [span_digits].
  - by intros [= <- <-].
  - destruct (is_digit a) eqn:Ha.
    + destruct (span_digits s) as [d' r'].
      intros [= <- <-]. destruct (IH d' r' eq_refl) as [-> Hd].
      split; [done|]. cbn [all_digits]. by rewrite Ha, Hd.
    + by intros [= <- <-].
Qed.

(** The pattern of line 68 matches a text exactly when the text is
    ["in:topic-"], a non-empty run of digits, one blank and anything; the
    match is that prefix up to the blank and the group is the digits. A
    token without digits, or without the blank behind them, is ordinary
    text. *)
Theorem match_inTopic_iff (s whole digits : string) :
  match_inTopic s = Some (whole, digits)
  ↔ digits ≠ "" ∧ all_digits digits = true
    ∧ whole = "in:topic-" +:+ digits +:+ " "
    ∧ ∃ rest, s = whole +:+ rest.
Proof.
  split.
  - unfold match_inTopic.
    destruct (String.prefix "in:topic-" s) eqn:Hp; [|done].
    apply prefix_app_iff in Hp as [post ->].
    change (drop_str 9 ("in:topic-" +:+ post)) with post.
    destruct (span_digits post) as [d r] eqn:Hspan.
    apply span_digits_spec in Hspan as [-> Hd].
    destruct d as [|a d]; [done|].
    destruct r as [|b r]; [done|].
    destruct (Ascii.eqb_spec b " ") as [->|Hb].
    + intros [= <- <-]. split; [done|]. split; [done|]. split; [done|].
      exists r. change (String " " r) with (" " +:+ r).
      by rewrite !string_app_assoc.
    + intros H. exfalso. apply Hb.
      destruct b as [[] [] [] [] [] [] [] []]; try discriminate H. reflexivity.
  - intros (Hne & Hd & -> & rest & ->).
    rewrite !string_app_assoc. by apply match_inTopic_scoped.
Qed.

Example match_inTopic_sample :
  match_inTopic "in:topic-42 hello" = Some ("in:topic-42 ", "42")
  ∧ match_inTopic "in:topic-42" = None
  ∧ match_inTopic "in:topic- hello" = None
  ∧ match_inTopic "in:topic-4x2 hello" = None
  ∧ match_inTopic "find in:topic-42 hello" = None.
Proof. repeat split. Qed.

(** ** The stages of a content search *)

(** A call in the trace of a sequence was made by the first computation,
    or the first computation returned and the second made it. *)
Lemma elem_of_bind_trace {A B} e (m : M A) (f : A -> M B) :
  e ∈ fst (m ≫= f) →
  e ∈ fst m ∨ ∃ a, snd m = Ok a ∧ e ∈ fst (f a).
Proof.
  rewrite fst_bind, elem_of_app. intros [H|H]; [by left|].
  destruct (snd m) as [a|err]; [|by apply elem_of_nil in H].
  right. by exists a.
Qed.

Lemma elem_of_call_trace {A} e e' (r : result A) :
  e ∈ fst (call e' r) → e = e'.
Proof. cbn. by intros ->%list_elem_of_singleton. Qed.

Lemma snd_call {A} e (r : result A) : snd (call e r) = r.
Proof. reflexivity. Qed.

Lemma searchInContent_dispatch env data :
  searchInContent env data
  = let data := set_uid (or_num (uid data) 0) data in
    '(searchCids, searchUids) ←
      all2 (getSearchCids env data) (getSearchUids env data);
    '(pids, tids) ← dispatch env data searchCids searchUids;
    mainPids ← call (EGetMainPids tids) (topics_getMainPids env tids);
    let allPids := mergePids mainPids pids in
    allPids ← call (EPrivilegesFilter "topics:read" allPids (uid data))
                   (privileges_posts_filter env "topics:read" allPids (uid data));
    '(allPids, data) ← filterAndSort env allPids data;
    metadata ← fire "filter:search.inContent" (on_inContent (plugins env))
                    {| ic_pids := allPids; ic_data := data; ic_ext := [] |};
    if returnIds data then mret (rawIds mainPids tids pids allPids)
    else pagedResult env data metadata.
Proof. reflexivity. Qed.

(** Every call of a content search belongs to one of its stages, and a
    stage is reached only when every stage before it returned: scope
    resolution, dispatch, main-pid lookup, the privilege filter on the
    merged candidates, the filter and sort stage on what the privilege
    filter returned, the [filter:search.inContent] hook, and, outside
    raw-id mode, the assembly of the paged response. *)
Lemma searchInContent_events env data e :
  let data' := set_uid (or_num (uid data) 0) data in
  let scope := all2 (getSearchCids env data') (getSearchUids env data') in
  e ∈ fst (searchInContent env data) →
  e ∈ fst scope
  ∨ ∃ searchCids searchUids,
      snd scope = Ok (searchCids, searchUids) ∧
      (e ∈ fst (dispatch env data' searchCids searchUids)
       ∨ ∃ pids tids,
           snd (dispatch env data' searchCids searchUids) = Ok (pids, tids) ∧
           (e = EGetMainPids tids
            ∨ ∃ mainPids,
                topics_getMainPids env tids = Ok mainPids ∧
                (e = EPrivilegesFilter "topics:read" (mergePids mainPids pids)
                                       (uid data')
                 ∨ ∃ auth,
                     privileges_posts_filter env "topics:read"
                       (mergePids mainPids pids) (uid data') = Ok auth ∧
                     (e ∈ fst (filterAndSort env auth data')
                      ∨ ∃ final data'',
                          snd (filterAndSort env auth data') = Ok (final, data'') ∧
                          (e = EFire "filter:search.inContent"
                           ∨ ∃ metadata,
                               run_listeners (on_inContent (plugins env))
                                 {| ic_pids := final; ic_data := data'';
                                    ic_ext := [] |} = Ok metadata ∧
                               returnIds data'' = false ∧
                               e ∈ fst (pagedResult env data'' metadata)))))).
Proof.
  intros data' scope. rewrite searchInContent_dispatch. cbv zeta.
  fold data'. fold scope.
  intros [H|([searchCids searchUids] & Hscope & H)]%elem_of_bind_trace;
    [by left|right].
  exists searchCids, searchUids. split; [done|].
  apply elem_of_bind_trace in H as [H|([pids tids] & Hd & H)]; [by left|right].
  exists pids, tids. split; [done|].
  apply elem_of_bind_trace in H as [H|(mainPids & Hm & H)];
    [left; by apply elem_of_call_trace in H|right].
  exists mainPids. split; [done|].
  apply elem_of_bind_trace in H as [H|(auth & Ha & H)];
    [left; by apply elem_of_call_trace in H|right].
  exists auth. split; [done|].
  apply elem_of_bind_trace in H as [H|([final data''] & Hf & H)];
    [by left|right].
  exists final, data''. split; [done|].
  apply elem_of_bind_trace in H as [H|(metadata & Hmeta & H)];
    [left; by apply elem_of_call_trace in H|right].
  exists metadata. split; [done|].
  destruct (returnIds data''); [by apply elem_of_nil in H|done].
Qed.

(** ** Which index is queried *)

Lemma avoids_elem_of P t : avoids P t ↔ ∀ e, e ∈ t → P e = false.
Proof. unfold avoids. apply Forall_forall. Qed.

Lemma elem_of_all2_trace {A B} e (m1 : M A) (m2 : M B) :
  e ∈ fst (all2 m1 m2) ↔ e ∈ fst m1 ∨ e ∈ fst m2.
Proof. destruct m1 as [t1 r1], m2 as [t2 r2]. cbn. apply elem_of_app. Qed.

Lemma elem_of_bind_trace_l {A B} e (m : M A) (f : A -> M B) :
  e ∈ fst m → e ∈ fst (m ≫= f).
Proof. intros H. rewrite fst_bind, elem_of_app. by left. Qed.

Lemma elem_of_bind_trace_r {A B} e (m : M A) (f : A -> M B) a :
  snd m = Ok a → e ∈ fst (f a) → e ∈ fst (m ≫= f).
Proof. intros Hm H. rewrite fst_bind, elem_of_app, Hm. by right. Qed.

(** The calls of [doSearch]: one query of its index, with the text and
    the match mode of the request, when the domain is one of its own;
    none otherwise. *)
Lemma doSearch_trace env data searchCids searchUids type domains :
  fst (doSearch env data searchCids searchUids type domains)
  = if bool_decide (searchIn data ∈ map Some domains)
    then [EIndexQuery type (query data) (or_str (matchWords data) "all")]
    else [].
Proof.
  unfold doSearch. case_bool_decide; [|done].
  rewrite fst_bind. cbn [call fst snd].
  by destruct (run_listeners _ _).
Qed.

Lemma scope_avoids_search env data :
  avoids is_search_call
         (fst (all2 (getSearchCids env data) (getSearchUids env data))).
Proof.
  apply avoids_all2;
    [apply getSearchCids_avoids | apply getSearchUids_avoids]; done.
Qed.

(** Without the scoping token and outside the bookmarks domain, every
    search call of a content search is a query of an index that serves
    the requested domain (the post index for ["posts"] and
    ["titlesposts"], the topic index for ["titles"] and ["titlesposts"]),
    with the text of the request unchanged and the match mode defaulted
    to ["all"]; and once scope resolution has returned, each index that
    serves the domain is queried. *)
Theorem index_dispatch_by_domain (env : Env) (data : ISearchData) :
  match_inTopic (default "" (query data)) = None →
  searchIn data ≠ Some "bookmarks" →
  let t := fst (searchInContent env data) in
  let data' := set_uid (or_num (uid data) 0) data in
  let mode := or_str (matchWords data) "all" in
  (∀ e, is_search_call e = true → e ∈ t →
     ∃ idx domains,
       (idx, domains) ∈ indexDomains
       ∧ searchIn data ∈ map Some domains
       ∧ e = EIndexQuery idx (query data) mode)
  ∧ (∀ idx domains scoped,
       (idx, domains) ∈ indexDomains →
       searchIn data ∈ map Some domains →
       snd (all2 (getSearchCids env data') (getSearchUids env data')) = Ok scoped →
       EIndexQuery idx (query data) mode ∈ t).
Proof.
  intros Htoken Hdomain t data' mode.
  assert (Hdispatch : ∀ searchCids searchUids,
            fst (dispatch env data' searchCids searchUids)
            = fst (doSearch env data' searchCids searchUids "post"
                            ["posts"; "titlesposts"])
              ++ fst (doSearch env data' searchCids searchUids "topic"
                               ["titles"; "titlesposts"])).
  { intros searchCids searchUids. unfold dispatch.
    change (query data') with (query data). rewrite Htoken.
    change (searchIn data') with (searchIn data).
    rewrite bool_decide_eq_false_2 by done.
    by destruct (doSearch _ _ _ _ "post" _), (doSearch _ _ _ _ "topic" _). }
  split.
  - intros e He Hin. unfold t in Hin.
    apply searchInContent_events in Hin. fold data' in Hin.
    destruct Hin as [Hin|(searchCids & searchUids & _ & Hin)].
    { pose proof (scope_avoids_search env data') as Hs.
      rewrite avoids_elem_of in Hs. rewrite (Hs e Hin) in He. discriminate. }
    destruct Hin as [Hin|(pids & tids & _ & Hin)].
    { rewrite Hdispatch, !doSearch_trace, elem_of_app in Hin.
      change (searchIn data') with (searchIn data) in Hin.
      change (query data') with (query data) in Hin.
      change (matchWords data') with (matchWords data) in Hin.
      destruct Hin as [Hin|Hin]; case_bool_decide as Hserved;
        try (by apply elem_of_nil in Hin);
        apply list_elem_of_singleton in Hin as ->.
      - exists "post", ["posts"; "titlesposts"].
        split; [apply list_elem_of_here|done].
      - exists "topic", ["titles"; "titlesposts"].
        split; [apply list_elem_of_further, list_elem_of_here|done]. }
    destruct Hin as [->|(mainPids & _ & Hin)]; [discriminate|].
    destruct Hin as [->|(auth & _ & Hin)]; [discriminate|].
    destruct Hin as [Hin|(final & data'' & _ & Hin)].
    { pose proof (filterAndSort_avoids is_search_call env) as Hs.
      specialize (Hs ltac:(done) ltac:(done) ltac:(done) ltac:(done)
                     ltac:(done) auth data').
      rewrite avoids_elem_of in Hs. rewrite (Hs e Hin) in He. discriminate. }
    destruct Hin as [->|(metadata & _ & _ & Hin)]; [discriminate|].
    pose proof (pagedResult_avoids is_search_call env) as Hs.
    specialize (Hs ltac:(done) ltac:(done) data'' metadata).
    rewrite avoids_elem_of in Hs. rewrite (Hs e Hin) in He. discriminate.
  - intros idx domains [searchCids searchUids] Htable Hserved Hscope.
    unfold t. rewrite searchInContent_dispatch. cbv zeta. fold data'.
    eapply elem_of_bind_trace_r; [exact Hscope|]. cbv beta iota.
    apply elem_of_bind_trace_l.
    rewrite Hdispatch, !doSearch_trace, elem_of_app.
    change (searchIn data') with (searchIn data).
    change (query data') with (query data).
    change (matchWords data') with (matchWords data).
    unfold indexDomains in Htable.
    apply elem_of_cons in Htable as [[= -> ->]|Htable].
    + left. rewrite bool_decide_eq_true_2 by done. apply list_elem_of_here.
    + apply list_elem_of_singleton in Htable as [= -> ->].
      right. rewrite bool_decide_eq_true_2 by done. apply list_elem_of_here.
Qed.

Lemma index_dispatch_by_domain_witness :
  let t := fst (searchInContent emptyEnv
                  (set_query "hello"
                     (set_sortBy "relevance" (set_searchIn "titles" emptyQuery)))) in
  EIndexQuery "topic" (Some "hello") "all" ∈ t
  ∧ ∀ e, is_search_call e = true → e ∈ t →
      ∃ idx domains,
        (idx, domains) ∈ indexDomains
        ∧ Some "titles" ∈ map Some domains
        ∧ e = EIndexQuery idx (Some "hello") "all".
Proof.
  intros t.
  destruct (index_dispatch_by_domain emptyEnv
              (set_query "hello"
                 (set_sortBy "relevance" (set_searchIn "titles" emptyQuery))))
    as [Honly Hruns]; [reflexivity | intros H; discriminate H |].
  split; [|exact Honly].
  apply (Hruns "topic" ["titles"; "titlesposts"] ([], [])).
  - unfold indexDomains. apply list_elem_of_further, list_elem_of_here.
  - apply list_elem_of_here.
  - reflexivity.
Defined.

(** ** The fast path, end to end *)

Lemma fast_path_returns env pids data :
  fast_path env data = true →
  filterAndSort env pids data = ([], Ok (pids, data)).
Proof. intros H. unfold filterAndSort. by rewrite H. Qed.

Lemma dispatch_avoids P env data searchCids searchUids :
  (∀ idx text mode, P (EIndexQuery idx text mode) = false) →
  (∀ tid term, P (ETopicSearch tid term) = false) →
  searchIn data ≠ Some "bookmarks" →
  avoids P (fst (dispatch env data searchCids searchUids)).
Proof.
  intros Hidx Htopic Hdomain. unfold dispatch.
  rewrite bool_decide_eq_false_2 by done.
  destruct (match_inTopic _) as [[whole tid]|].
  - walk_trace.
  - apply avoids_all2; rewrite doSearch_trace; case_bool_decide;
      try apply avoids_nil; by repeat constructor.
Qed.

(** A search in a post domain whose [sortBy] is absent, empty or
    relevance, and whose [replies], [timeRange] and [hasTags] are each
    absent or the empty string, with no listener on
    [filter:search.filterAndSort], fetches no post fields, no topic, no
    user and no category from the first call to the last: the default of
    line 17 puts the request on the fast path. (A [hasTags] that is an
    array, be it empty, is outside: the guard of line 163 takes it for a
    criterion.) *)
Theorem search_default_sort_skips_stage (env : Env) (data : ISearchData) :
  searchIn data ∈ map Some ["posts"; "titles"; "titlesposts"] →
  or_str (sortBy data) "relevance" = "relevance" →
  truthy_str (replies data) = false →
  truthy_str (timeRange data) = false →
  truthy_soa (hasTags data) = false →
  hasListeners (plugins env) "filter:search.filterAndSort" = false →
  avoids is_stage_fetch (fst (search env data)).
Proof.
  intros Hdomain Hsort Hreplies Htime Htags Hhook. unfold search.
  set (data1 := set_sortBy (or_str (sortBy data) "relevance") data).
  change (searchIn data1) with (searchIn data).
  assert (Hnb : searchIn data ≠ Some "bookmarks").
  { intros Heq. rewrite Heq in Hdomain. revert Hdomain.
    refine (bool_decide_eq_false_1 _ _). reflexivity. }
  rewrite bool_decide_eq_true_2.
  2: { apply list_elem_of_fmap in Hdomain as (d & -> & Hd).
       apply list_elem_of_fmap_2. unfold contentDomains. revert Hd.
       rewrite !elem_of_cons. tauto. }
  apply avoids_bind; [|intros; apply avoids_ret].
  apply avoids_bind; [|intros; apply avoids_ret].
  apply avoids_elem_of. intros e Hin.
  apply searchInContent_events in Hin.
  set (data' := set_uid (or_num (uid data1) 0) data1) in Hin.
  destruct Hin as [Hin|(searchCids & searchUids & _ & Hin)].
  { revert e Hin. apply avoids_elem_of, avoids_all2;
      [apply getSearchCids_avoids | apply getSearchUids_avoids]; done. }
  destruct Hin as [Hin|(pids & tids & _ & Hin)].
  { revert e Hin. apply avoids_elem_of, dispatch_avoids; done. }
  destruct Hin as [->|(mainPids & _ & Hin)]; [done|].
  destruct Hin as [->|(auth & _ & Hin)]; [done|].
  assert (Hfast : fast_path env data' = true).
  { unfold fast_path. cbn [sortBy replies timeRange hasTags searchIn data' data1
                           set_uid set_sortBy].
    rewrite Hsort, Hreplies, Htime, Htags, Hhook.
    by rewrite bool_decide_eq_true_2, bool_decide_eq_false_2. }
  rewrite (fast_path_returns env auth data' Hfast) in Hin.
  destruct Hin as [Hin|(final & data'' & _ & Hin)];
    [by apply elem_of_nil in Hin|].
  destruct Hin as [->|(metadata & _ & _ & Hin)]; [done|].
  revert e Hin. apply avoids_elem_of, pagedResult_avoids; done.
Qed.

Lemma search_default_sort_skips_stage_witness :
  avoids is_stage_fetch
         (fst (search forumEnv
                 (set_query "hello" (set_searchIn "titlesposts" emptyQuery)))).
Proof.
  apply search_default_sort_skips_stage; try reflexivity.
  apply list_elem_of_further, list_elem_of_further, list_elem_of_here.
Defined.

(** ** Raw-id mode and what gets hydrated *)

Lemma sortPosts_data env posts data sorted data' :
  sortPosts env posts data = Ok (sorted, data') →
  data' = data
  ∨ data' = set_sortDirection (or_str (sortDirection data) "desc") data.
Proof.
  unfold sortPosts.
  destruct (negb (nonempty posts) || bool_decide (sortBy data = Some "relevance")).
  { intros [= _ <-]. by left. }
  cbn [sortBy set_sortDirection].
  destruct (sortBy data) as [sb|]; [|done].
  destruct (split "." sb) as [|f0 [|f1 [|f2 fs]]].
  - intros [= _ <-]. by right.
  - destruct (sort _ posts) as [r|]; simpl; [|done].
    intros [= _ <-]. by right.
  - destruct (negb _); [intros [= _ <-]; by right|].
    destruct (sort _ posts) as [r|]; simpl; [|done].
    intros [= _ <-]. by right.
  - intros [= _ <-]. by right.
Qed.

(** The filter and sort stage leaves [data] as it is, except that it may
    default [sortDirection]. *)
Lemma filterAndSort_data env pids data ids data' :
  snd (filterAndSort env pids data) = Ok (ids, data') →
  data' = data
  ∨ data' = set_sortDirection (or_str (sortDirection data) "desc") data.
Proof.
  unfold filterAndSort. destruct (fast_path env data).
  { intros [= _ <-]. by left. }
  rewrite snd_bind. destruct (snd (getMatchedPosts env pids data)) as [matched|];
    [|done].
  destruct (negb (nonempty matched)).
  { intros [= _ <-]. by left. }
  rewrite snd_bind. cbn [lift snd].
  destruct (filterByPostcount _ _ _) as [kept|]; [|done].
  rewrite snd_bind. cbn [lift snd].
  destruct (sortPosts _ _ _) as [[sorted data1]|] eqn:Hsort; [|done].
  rewrite snd_bind. cbn [fire call snd].
  destruct (run_listeners _ _) as [result|]; [|done].
  intros [= _ <-]. by eapply sortPosts_data.
Qed.

Lemma each_batch_avoids P (f : list jsid -> M (list jsid)) batches allPids :
  (∀ b, avoids P (fst (f b))) → avoids P (fst (each_batch f batches allPids)).
Proof.
  intros Hf. revert allPids.
  induction batches as [|b bs IH]; intros allPids; simpl;
    [apply avoids_nil|].
  apply avoids_bind; [apply Hf | intros; apply IH].
Qed.

Lemma dispatch_avoids_all P env data searchCids searchUids :
  (∀ idx text mode, P (EIndexQuery idx text mode) = false) →
  (∀ tid term, P (ETopicSearch tid term) = false) →
  (∀ key size, P (EBookmarks key size) = false) →
  (∀ pids, P (EFilterPidsByCid pids) = false) →
  (∀ pids, P (EFilterPidsByUid pids) = false) →
  (∀ keys fs, P (EGetObjectsFields keys fs) = false) →
  avoids P (fst (dispatch env data searchCids searchUids)).
Proof.
  intros Hidx Htopic Hbm Hcid Huid Hobj. unfold dispatch.
  destruct (match_inTopic _) as [[whole tid]|]; [walk_trace|].
  case_bool_decide.
  - apply avoids_bind; [|intros; apply avoids_ret].
    unfold searchInBookmarks. apply avoids_bind; [by apply avoids_call|].
    intros batches. apply each_batch_avoids. intros b.
    unfold bookmarksBatch, filterByText. walk_trace.
  - apply avoids_all2; rewrite doSearch_trace; case_bool_decide;
      try apply avoids_nil; by repeat constructor.
Qed.

Lemma pagedResult_events env data metadata e :
  e ∈ fst (pagedResult env data metadata) →
  e = EGetPostSummaryByPids
        (pageSlice data (effectiveItemsPerPage data) (ic_pids metadata))
        (uid data)
  ∨ e = EFire "filter:search.contentGetResult".
Proof.
  unfold pagedResult.
  intros [H|(summaries & _ & H)]%elem_of_bind_trace.
  { left. by apply elem_of_call_trace in H. }
  apply elem_of_bind_trace in H as [H|(payload & _ & H)].
  { right. by apply elem_of_call_trace in H. }
  by apply elem_of_nil in H.
Qed.

Lemma pageSlice_sublist data size pids :
  pageSlice data size pids `sublist_of` pids.
Proof.
  unfold pageSlice. destruct (page data) as [p|]; [|done].
  destruct (p =? 0); [done|apply slice_sublist].
Qed.

(** In raw-id mode no post summary is ever asked for, and a content
    search that returns, returns the two id lists. *)
Theorem returnIds_skips_hydration (env : Env) (data : ISearchData) :
  returnIds data = true →
  avoids is_summary (fst (searchInContent env data))
  ∧ ∀ t r, searchInContent env data = (t, Ok r) → ∃ pids tids, r = Ids pids tids.
Proof.
  intros Hraw.
  assert (Hkeep : ∀ auth final data'',
            snd (filterAndSort env auth
                   (set_uid (or_num (uid data) 0) data)) = Ok (final, data'') →
            returnIds data'' = true).
  { intros auth final data'' H.
    by apply filterAndSort_data in H as [->| ->]. }
  split.
  - apply avoids_elem_of. intros e Hin.
    apply searchInContent_events in Hin.
    destruct Hin as [Hin|(searchCids & searchUids & _ & Hin)].
    { revert e Hin. apply avoids_elem_of, avoids_all2;
        [apply getSearchCids_avoids | apply getSearchUids_avoids]; done. }
    destruct Hin as [Hin|(pids & tids & _ & Hin)].
    { revert e Hin. apply avoids_elem_of, dispatch_avoids_all; done. }
    destruct Hin as [->|(mainPids & _ & Hin)]; [done|].
    destruct Hin as [->|(auth & _ & Hin)]; [done|].
    destruct Hin as [Hin|(final & data'' & Hf & Hin)].
    { revert e Hin. apply avoids_elem_of, filterAndSort_avoids; done. }
    destruct Hin as [->|(metadata & _ & Hno & _)]; [done|].
    apply Hkeep in Hf. congruence.
  - intros t r H. rewrite searchInContent_dispatch in H. cbv zeta in H.
    apply bind_Ok_inv in H as (t1 & [searchCids searchUids] & t2 & _ & H & _).
    apply bind_Ok_inv in H as (t3 & [pids tids] & t4 & _ & H & _).
    apply bind_Ok_inv in H as (t5 & mainPids & t6 & _ & H & _).
    apply bind_Ok_inv in H as (t7 & auth & t8 & _ & H & _).
    apply bind_Ok_inv in H as (t9 & [final data''] & t10 & Hf & H & _).
    apply bind_Ok_inv in H as (t11 & metadata & t12 & _ & H & _).
    rewrite (Hkeep auth final data'') in H by (by rewrite Hf).
    apply ret_Ok_inv in H as [<- _]. unfold rawIds. by eexists _, _.
Qed.

Lemma returnIds_skips_hydration_witness :
  avoids is_summary
         (fst (searchInContent forumEnv (set_returnIds true timestampQuery))).
Proof.
  apply (returnIds_skips_hydration forumEnv (set_returnIds true timestampQuery)).
  reflexivity.
Defined.

(** On the fast path, with no listener on [filter:search.inContent], the
    only ids a content search asks summaries for are a subsequence of what
    the [topics:read] privilege filter returned for the merged, truthy
    candidates, and requester and filter agree on the user id, the
    request's or [0]. *)
Theorem fast_path_hydrates_authorised (env : Env) (data : ISearchData)
    (shown : list jsid) (u : option Z) :
  fast_path env data = true →
  on_inContent (plugins env) = [] →
  EGetPostSummaryByPids shown u ∈ fst (searchInContent env data) →
  u = Some (or_num (uid data) 0)
  ∧ ∃ candidates auth,
      Forall Boolean candidates
      ∧ privileges_posts_filter env "topics:read" candidates u = Ok auth
      ∧ shown `sublist_of` auth.
Proof.
  intros Hfast Hhook Hin.
  apply searchInContent_events in Hin.
  set (data' := set_uid (or_num (uid data) 0) data) in Hin.
  assert (Hfast' : fast_path env data' = true) by exact Hfast.
  destruct Hin as [Hin|(searchCids & searchUids & _ & Hin)].
  { exfalso. revert Hin. apply (avoids_not_elem_of is_summary); [|done].
    apply avoids_all2;
      [apply getSearchCids_avoids | apply getSearchUids_avoids]; done. }
  destruct Hin as [Hin|(pids & tids & _ & Hin)].
  { exfalso. revert Hin. apply (avoids_not_elem_of is_summary); [|done].
    apply dispatch_avoids_all; done. }
  destruct Hin as [Hin|(mainPids & _ & Hin)]; [done|].
  destruct Hin as [Hin|(auth & Hauth & Hin)]; [done|].
  rewrite (fast_path_returns env auth data' Hfast') in Hin.
  destruct Hin as [Hin|(final & data'' & [= <- <-] & Hin)];
    [by apply elem_of_nil in Hin|].
  destruct Hin as [Hin|(metadata & Hmeta & _ & Hin)]; [done|].
  rewrite Hhook in Hmeta. injection Hmeta as <-.
  apply pagedResult_events in Hin as [[= -> ->]|Hin]; [|done].
  split; [done|].
  exists (mergePids mainPids pids), auth.
  split; [apply mergePids_truthy|]. split; [exact Hauth|].
  apply pageSlice_sublist.
Qed.

Lemma fast_path_hydrates_authorised_witness :
  Some 0 = Some (or_num (uid inTopicQuery) 0)
  ∧ ∃ candidates auth,
      Forall Boolean candidates
      ∧ privileges_posts_filter
          (with_topic_search [Some 5; Some 0; Some 6] emptyEnv)
          "topics:read" candidates (Some 0) = Ok auth
      ∧ [Some 5; Some 6] `sublist_of` auth.
Proof.
  apply (fast_path_hydrates_authorised
           (with_topic_search [Some 5; Some 0; Some 6] emptyEnv)
           inTopicQuery [Some 5; Some 6] (Some 0)).
  - reflexivity.
  - reflexivity.
  - vm_compute. apply list_elem_of_further, list_elem_of_further,
      list_elem_of_further, list_elem_of_further, list_elem_of_here.
Defined.

(** ** The two id lists of raw-id mode *)

Lemma toString_id_Some_inj (a b : jsid) absent :
  is_Some a → is_Some b →
  toString_id a absent = toString_id b absent → a = b.
Proof.
  intros [x ->] [y ->]. cbn. unfold toString_num.
  by intros ->%(inj pretty).
Qed.

(** In raw-id mode the topic ids come back from the main posts that
    survived: when every matched topic has a main post and no two topics
    share one, each hit among the main posts is answered, in the order of
    the candidate list, with the topic it is the main post of; the post
    ids are the candidates that were direct hits. *)
Theorem rawIds_topics_of_main_posts (mainOf : jsid -> jsid)
    (tids pids allPids returnPids returnTids : list jsid) :
  (∀ t, t ∈ tids → is_Some (mainOf t)) →
  (∀ t t', t ∈ tids → t' ∈ tids → mainOf t = mainOf t' → t = t') →
  rawIds (map mainOf tids) tids pids allPids = Ids returnPids returnTids →
  returnPids = filter (fun pid => pid ∈ pids) allPids
  ∧ Forall2 (fun pid t => t ∈ tids ∧ mainOf t = pid)
            (filter (fun pid => pid ∈ map mainOf tids) allPids) returnTids.
Proof.
  intros Hsome Hinj. unfold rawIds. intros [= <- <-].
  split; [done|].
  apply Forall2_fmap_r, Forall_Forall2_diag, Forall_forall.
  intros pid [Hmain _]%list_elem_of_filter.
  apply list_elem_of_fmap in Hmain as (t & -> & Ht).
  rewrite map_map. cbv beta.
  pose proof (zipObject_lookup (fun t => toString_id (mainOf t) "null")
                (fun t => t) tids t) as Hlookup.
  rewrite List.map_id in Hlookup. unfold compose. cbv beta.
  assert (Hgoal : ∀ o : option jsid, o = Some t →
            default None o ∈ tids ∧ mainOf (default None o) = mainOf t)
    by (by intros o ->).
  apply Hgoal, Hlookup; [|done].
  intros x Hx Hkey. apply Hinj; [done|done|].
  apply (toString_id_Some_inj _ _ "null"); auto.
Qed.

Lemma rawIds_topics_of_main_posts_witness :
  rawIds [Some 70; Some 80; Some 90] [Some 7; Some 8; Some 9]
         [Some 1; Some 80] [Some 90; Some 1; Some 80; Some 70]
  = Ids [Some 1; Some 80] [Some 9; Some 8; Some 7].
Proof.
  destruct (rawIds [Some 70; Some 80; Some 90] [Some 7; Some 8; Some 9]
                   [Some 1; Some 80] [Some 90; Some 1; Some 80; Some 70])
    as [returnPids returnTids|] eqn:H; [|by vm_compute in H].
  destruct (rawIds_topics_of_main_posts sampleMainPid
              [Some 7; Some 8; Some 9] [Some 1; Some 80]
              [Some 90; Some 1; Some 80; Some 70] returnPids returnTids)
    as [-> _].
  - intros t Ht. repeat (apply elem_of_cons in Ht as [->|Ht]; [by eexists|]).
    by apply elem_of_nil in Ht.
  - intros t t' Ht Ht' Heq.
    repeat (apply elem_of_cons in Ht as [->|Ht];
            [repeat (apply elem_of_cons in Ht' as [->|Ht'];
                     [first [reflexivity | discriminate Heq]|]);
             by apply elem_of_nil in Ht'|]).
    by apply elem_of_nil in Ht.
  - exact H.
  - vm_compute in H. injection H as <-. reflexivity.
Defined.

(** ** Bookmarks without a text, and bookmarks without a row *)

Lemma each_batch_ret (f : list jsid -> M (list jsid))
    (g : list jsid -> list jsid) batches allPids :
  (∀ b, f b = mret (g b)) →
  each_batch f batches allPids = mret (allPids ++ concat (map g batches)).
Proof.
  intros Hf. revert allPids.
  induction batches as [|b bs IH]; intros allPids; simpl.
  - by rewrite app_nil_r.
  - rewrite Hf. unfold mbind, M_bind, bind, mret, M_ret, ret.
    rewrite IH. unfold mret, M_ret, ret. by rewrite app_assoc.
Qed.

(** Without a text and without a scope restriction the bookmark search
    reads the set of the requester in batches of 500 and returns every
    bookmarked id, batch after batch, each batch in its own order; it
    calls nothing else. *)
Theorem searchInBookmarks_no_text (env : Env) (data : ISearchData)
    (batches : list (list jsid)) :
  truthy_str (query data) = false →
  batch_processSortedSet env (bookmarksKey data) 500 = Ok batches →
  searchInBookmarks env data [] []
  = ([EBookmarks (bookmarksKey data) 500], Ok (concat batches)).
Proof.
  intros Hq Hb. unfold searchInBookmarks. rewrite Hb.
  unfold mbind, M_bind, bind, call.
  rewrite (each_batch_ret _ (fun b => b)).
  - by rewrite List.map_id.
  - intros b. unfold bookmarksBatch. cbn [nonempty].
    unfold truthy_str in Hq. destruct (query data) as [q|]; [|done].
    by destruct (String.eqb q "").
Qed.

Lemma searchInBookmarks_no_text_witness :
  searchInBookmarks
    (with_bookmarks [[Some 4; Some 2]; []; [Some 9]] emptyEnv)
    (set_uid 7 (set_searchIn "bookmarks" emptyQuery)) [] []
  = ([EBookmarks "uid:7:bookmarks" 500], Ok [Some 4; Some 2; Some 9]).
Proof.
  apply (searchInBookmarks_no_text
           (with_bookmarks [[Some 4; Some 2]; []; [Some 9]] emptyEnv)
           (set_uid 7 (set_searchIn "bookmarks" emptyQuery))
           [[Some 4; Some 2]; []; [Some 9]]); reflexivity.
Defined.

Lemma map_throwing_row_tid_null rows :
  None ∈ rows → map_throwing row_tid rows = Throw TypeError.
Proof.
  induction rows as [|row rows IH]; [by intros ?%elem_of_nil|].
  intros [<-|Hin]%elem_of_cons; [done|].
  simpl. destruct row as [o|]; [|done]. simpl. by rewrite IH.
Qed.

(** A text search over bookmarks throws a [TypeError] as soon as the
    object store has no row for one id of the batch: line 139 reads [tid]
    of every row before anything is matched. *)
Theorem bookmarks_missing_row_throws (env : Env) (data : ISearchData)
    (q : string) (pids : list jsid) (rows : list (option JsObj)) :
  query data = Some q →
  q ≠ "" →
  db_getObjectsFields env
    (map (fun pid => "post:" +:+ toString_id pid "null") pids)
    ["content"; "tid"] = Ok rows →
  None ∈ rows →
  snd (bookmarksBatch env data [] [] pids) = Throw TypeError.
Proof.
  intros Hq Hne Hrows Hnull.
  rewrite (bookmarksBatch_text env data q pids [] [] pids pids Hq Hne
             eq_refl eq_refl).
  unfold filterByText. rewrite snd_bind. cbn [call snd]. rewrite Hrows.
  rewrite snd_bind. cbn [lift snd].
  by rewrite map_throwing_row_tid_null.
Qed.

Lemma bookmarks_missing_row_throws_witness :
  snd (bookmarksBatch petEnv (catDogQuery "any") [] [] [Some 1; Some 2])
  = Throw TypeError.
Proof.
  apply (bookmarks_missing_row_throws petEnv (catDogQuery "any") "cat dog"
           [Some 1; Some 2]
           [Some [("content", VStr "I have a cat"); ("tid", VNum 7)]; None]).
  - reflexivity.
  - intros H; discriminate H.
  - vm_compute. reflexivity.
  - apply list_elem_of_further, list_elem_of_here.
Defined.

(** ** What hydration fetches *)

Section ZipObjectValues.
Context {A : Type}.

Lemma zipObject_from_nil (m : gmap string A) keys k :
  m !! k = None → zipObject_from m keys [] !! k = None.
Proof.
  revert m. induction keys as [|a keys IH]; intros m Hm; simpl; [done|].
  apply IH. by apply lookup_delete_None; right.
Qed.

Lemma zipObject_nil keys k : zipObject keys ([] : list A) !! k = None.
Proof. by apply zipObject_from_nil. Qed.

Lemma zipObject_from_elem_of (m : gmap string A) keys values k v :
  zipObject_from m keys values !! k = Some v →
  v ∈ values ∨ m !! k = Some v.
Proof.
  revert m values. induction keys as [|a keys IH]; intros m values; simpl.
  - by right.
  - destruct values as [|x values].
    + intros [H|H]%IH; [by left|]. right.
      by apply lookup_delete_Some in H as [_ H].
    + intros [H|H]%IH; [left; by apply list_elem_of_further|].
      destruct (decide (a = k)) as [->|Hne].
      * rewrite lookup_insert_eq in H. injection H as ->.
        left. apply list_elem_of_here.
      * rewrite lookup_insert_ne in H by done. by right.
Qed.

(** What a dictionary yields is one of the values it was built from. *)
Lemma zipObject_elem_of keys (values : list A) k v :
  zipObject keys values !! k = Some v → v ∈ values.
Proof. by intros [H|H]%zipObject_from_elem_of. Qed.

End ZipObjectValues.

Lemma getUsers_off env uids data sb :
  sortBy data = Some sb → startsWith "user" sb = false →
  getUsers env uids data = mret [].
Proof. intros Hs Hu. unfold getUsers. by rewrite Hs, Hu. Qed.

Lemma getCategories_off env cids data sb :
  sortBy data = Some sb → startsWith "category." sb = false →
  getCategories env cids data = mret None.
Proof. intros Hs Hc. unfold getCategories. by rewrite Hs, Hc. Qed.

(** Hydration fetches authors and categories only for the sort that
    needs them. Unless [sortBy] starts with ["user"], no user is fetched
    and no surviving post carries one; unless it starts with
    ["category."], the object store is not read, and neither a surviving
    post nor its topic carries a category. *)
Theorem getMatchedPosts_fetches_on_demand (env : Env) (pids : list jsid)
    (data : ISearchData) (sb : string) (t : list Event) (matched : list IPost) :
  sortBy data = Some sb →
  getMatchedPosts env pids data = (t, Ok matched) →
  (startsWith "user" sb = false →
     avoids is_users_fetch t ∧ Forall (fun p : IPost => user p = None) matched)
  ∧ (startsWith "category." sb = false →
       avoids is_objects_fetch t
       ∧ Forall (fun p : IPost =>
                   category p = None
                   ∧ ∀ tp, topic p = Some tp → t_category tp = None) matched).
Proof.
  intros Hsort H.
  assert (Ht : t = fst (getMatchedPosts env pids data)) by (by rewrite H).
  unfold getMatchedPosts in H.
  apply bind_Ok_inv in H as (t1 & rows & t2 & _ & H & _).
  apply bind_Ok_inv in H as (t3 & [users topics] & t4 & Hall & H & _).
  apply ret_Ok_inv in H as [<- _].
  apply all2_Ok_inv in Hall as (tu & tt & Husers & Htopics & _).
  split.
  - intros Huser. split.
    + subst t. unfold getMatchedPosts.
      apply avoids_bind; [by apply avoids_call|]. intros rows'. cbv zeta.
      apply avoids_bind; [|intros []; apply avoids_ret].
      apply avoids_all2.
      * rewrite (getUsers_off _ _ _ sb) by done. apply avoids_ret.
      * by apply getTopics_avoids.
    + rewrite (getUsers_off _ _ _ sb) in Husers by done.
      injection Husers as _ <-.
      apply Forall_forall. intros p [Hp _]%filter_bool_elem_of.
      apply list_elem_of_fmap in Hp as (pf & -> & _).
      unfold enrich_post. cbn [user]. by rewrite zipObject_nil.
  - intros Hcat.
    unfold getTopics in Htopics.
    apply bind_Ok_inv in Htopics as (t5 & topicsData & t6 & _ & Htopics & _).
    rewrite (getCategories_off _ _ _ sb) in Htopics by done.
    apply bind_Ok_inv in Htopics as (t7 & cats & t8 & [= _ <-] & Htopics & _).
    apply ret_Ok_inv in Htopics as [<- _].
    split.
    + subst t. unfold getMatchedPosts.
      apply avoids_bind; [by apply avoids_call|]. intros rows'. cbv zeta.
      apply avoids_bind; [|intros []; apply avoids_ret].
      apply avoids_all2; [by apply getUsers_avoids|].
      unfold getTopics.
      apply avoids_bind; [by apply avoids_call|]. intros topicsData'.
      cbv zeta. rewrite (getCategories_off _ _ _ sb) by done.
      apply avoids_bind; [apply avoids_ret|intros; apply avoids_ret].
    + apply Forall_forall. intros p [Hp _]%filter_bool_elem_of.
      apply list_elem_of_fmap in Hp as (pf & -> & _).
      unfold enrich_post. cbn [topic category].
      destruct (zipObject _ _ !! _) as [[tp|]|] eqn:Hlookup;
        [|by split|by split].
      apply zipObject_elem_of, list_elem_of_fmap in Hlookup
        as ([td|] & Htp & _); [|done].
      injection Htp as ->. split; [done|]. by intros ? [= <-].
Qed.

Lemma getMatchedPosts_fetches_on_demand_witness :
  avoids is_users_fetch
         (fst (getMatchedPosts forumEnv [Some 2; Some 3] timestampQuery))
  ∧ avoids is_objects_fetch
           (fst (getMatchedPosts forumEnv [Some 2; Some 3] timestampQuery)).
Proof.
  destruct (getMatchedPosts forumEnv [Some 2; Some 3] timestampQuery)
    as [t [matched|err]] eqn:H; [|by vm_compute in H].
  destruct (getMatchedPosts_fetches_on_demand forumEnv [Some 2; Some 3]
              timestampQuery "timestamp" t matched eq_refl H) as [Hu Hc].
  split; [apply Hu | apply Hc]; reflexivity.
Defined.

(** When a candidate survives hydration and no listener is registered on
    [filter:search.filterAndSort], every id the stage returns is the id of
    a row the post store answered with, which is not soft-deleted and
    whose topic, as stored under its [tid], exists and is not soft-deleted.
    The topic store is taken to answer position by position. *)
Theorem filterAndSort_keeps_live_only (env : Env) (pids : list jsid)
    (data : ISearchData) (topicStore : Z -> option ITopicData)
    (t : list Event) (ids : list jsid) (after_ : ISearchData) :
  fast_path env data = false →
  on_filterAndSort (plugins env) = [] →
  (∀ tids, topics_getTopicsData env tids = Ok (map topicStore tids)) →
  snd (getMatchedPosts env pids data) ≠ Ok [] →
  filterAndSort env pids data = (t, Ok (ids, after_)) →
  ∃ rows,
    posts_getPostsFields env pids postFields = Ok rows
    ∧ ∀ i, i ∈ ids →
        ∃ row td,
          Some row ∈ rows ∧ i = Some (pid row) ∧ deleted row = 0
          ∧ topicStore (tid row) = Some td ∧ td_deleted td = 0.
Proof.
  intros Hfast Hhook Hstore Hsome H.
  destruct (getMatchedPosts env pids data) as [t0 [matched|err]] eqn:Hm.
  2: { unfold filterAndSort in H. rewrite Hfast, Hm in H. discriminate H. }
  cbn [snd] in Hsome.
  destruct (getMatchedPosts_live env pids data t0 matched Hm)
    as (rows & Hrows & Hlive).
  exists rows. split; [done|]. intros i Hi.
  destruct (filterAndSort_ids_of_matched env pids data t0 matched t ids after_
              Hfast Hhook Hm ltac:(congruence) H i Hi) as (p & Hp & ->).
  destruct (Hlive p Hp) as (Hrow & Hdel & _).
  destruct (getMatchedPosts_container env pids data t0 matched topicStore
              Hstore Hm p Hp) as (td & Htd & Htdel).
  by exists (fields p), td.
Qed.

Lemma filterAndSort_keeps_live_only_witness :
  ∃ rows,
    posts_getPostsFields forumEnv [Some 1; Some 4; Some 5; Some 3] postFields
    = Ok rows
    ∧ ∀ i, i ∈ [Some 3] →
        ∃ row td,
          Some row ∈ rows ∧ i = Some (pid row) ∧ deleted row = 0
          ∧ forumTopics (tid row) = Some td ∧ td_deleted td = 0.
Proof.
  apply (filterAndSort_keeps_live_only forumEnv
           [Some 1; Some 4; Some 5; Some 3] timestampQuery forumTopics
           (fst (filterAndSort forumEnv [Some 1; Some 4; Some 5; Some 3]
                               timestampQuery))
           [Some 3] (set_sortDirection "desc" timestampQuery)).
  - reflexivity.
  - reflexivity.
  - intros tids. reflexivity.
  - intros Hnone. by vm_compute in Hnone.
  - vm_compute. reflexivity.
Defined.

(** ** More on sorting *)

Section SortMore.
Context {A : Type}.
Variable cmp : A -> A -> result JsNum.

(** A list that is in order for the comparator is left as it is. *)
Lemma sort_sorted_fixed (R : A -> A -> Prop) l :
  StronglySorted R l →
  (∀ a b, R a b → ∃ c, cmp a b = Ok c ∧ after c = false) →
  sort cmp l = Ok l.
Proof.
  intros Hs Hcmp. induction Hs as [|x l Hl IH Hx]; [done|].
  simpl. rewrite IH. simpl. destruct l as [|y l']; [done|].
  simpl. apply Forall_cons in Hx as [Hxy _].
  destruct (Hcmp x y Hxy) as (c & -> & Hc). simpl. by rewrite Hc.
Qed.

Lemma sort_insert_throw_source x l e :
  sort_insert cmp x l = Throw e → ∃ a b, cmp a b = Throw e.
Proof.
  induction l as [|y l IH]; simpl; [done|].
  destruct (cmp x y) as [c|e'] eqn:Hc; simpl.
  - destruct (after c); [|done].
    destruct (sort_insert cmp x l) as [r|e'']; simpl; [done|].
    intros [= <-]. by apply IH.
  - intros [= <-]. by exists x, y.
Qed.

(** An exception of a sort is an exception of its comparator. *)
Lemma sort_throw_source l e :
  sort cmp l = Throw e → ∃ a b, cmp a b = Throw e.
Proof.
  induction l as [|x l IH]; simpl; [done|].
  destruct (sort cmp l) as [r|e']; simpl.
  - apply sort_insert_throw_source.
  - intros [= <-]. by apply IH.
Qed.

(** Sorting two or more elements compares every one of them: an element
    on which the comparator always throws makes the sort throw. *)
Lemma sort_throws_on x l :
  x ∈ l → (2 <= length l)%nat →
  (∀ y, ∃ e, cmp x y = Throw e) →
  (∀ y, ∃ e, cmp y x = Throw e) →
  ∃ e, sort cmp l = Throw e.
Proof.
  intros Hin Hlen Hl Hr. induction l as [|a l IH]; [by apply elem_of_nil in Hin|].
  simpl. destruct (sort cmp l) as [r|e] eqn:Hsort; simpl; [|by eexists].
  pose proof (sort_Permutation cmp l r Hsort) as Hperm.
  assert (Hhead : ∀ y, r = [y] ∨ (a = x ∧ ∃ r', r = y :: r') →
            (y = x ∨ a = x) → ∃ e, sort_insert cmp a r = Throw e).
  { intros y Hr' Hxy.
    assert (∃ r', r = y :: r') as [r' ->]
      by (destruct Hr' as [->|[_ ?]]; [by exists []|done]).
    simpl. destruct Hxy as [->| ->].
    - destruct (Hr a) as [e ->]. by eexists.
    - destruct (Hl y) as [e ->]. by eexists. }
  apply elem_of_cons in Hin as [->|Hin].
  - destruct r as [|y r'].
    { apply Permutation_nil_l in Hperm. subst l. simpl in Hlen. lia. }
    apply (Hhead y); [right; split; [done|by eexists] | by right].
  - destruct l as [|b [|c l']]; [by apply elem_of_nil in Hin| |].
    + apply list_elem_of_singleton in Hin as ->.
      apply Permutation_singleton_r in Hperm as ->.
      apply (Hhead b); [by left | by left].
    + destruct IH as [e He]; [done|simpl; lia|]. congruence.
Qed.

End SortMore.

(** Whenever [sortPosts] returns, it has only reordered the posts. When
    the list is empty or the sort is relevance, posts and [data] are
    untouched; in every other case [sortDirection] has been written into
    [data], defaulted to ["desc"]. *)
Theorem sortPosts_reorders_only (env : Env) (posts : list IPost)
    (data : ISearchData) (sorted : list IPost) (after_ : ISearchData) :
  sortPosts env posts data = Ok (sorted, after_) →
  sorted ≡ₚ posts
  ∧ if negb (nonempty posts) || bool_decide (sortBy data = Some "relevance")
    then sorted = posts ∧ after_ = data
    else after_ = set_sortDirection (or_str (sortDirection data) "desc") data.
Proof.
  intros H. split; [by eapply sortPosts_Permutation|].
  unfold sortPosts in H.
  destruct (negb (nonempty posts) || bool_decide (sortBy data = Some "relevance")).
  { by injection H as <- <-. }
  cbn [sortBy set_sortDirection] in H.
  destruct (sortBy data) as [sb|]; [|done].
  destruct (split "." sb) as [|f0 [|f1 [|f2 fs]]].
  - by injection H as _ <-.
  - destruct (sort _ posts) as [r|]; simpl in H; [|done]. by injection H as _ <-.
  - destruct (negb _); [by injection H as _ <-|].
    destruct (sort _ posts) as [r|]; simpl in H; [|done]. by injection H as _ <-.
  - by injection H as _ <-.
Qed.

Lemma sortPosts_reorders_only_witness :
  ∃ sorted,
    sortPosts emptyEnv samplePosts timestampQuery
    = Ok (sorted, set_sortDirection "desc" timestampQuery)
    ∧ sorted ≡ₚ samplePosts.
Proof.
  destruct (sortPosts emptyEnv samplePosts timestampQuery)
    as [[sorted after_]|err] eqn:H; [|by vm_compute in H].
  destruct (sortPosts_reorders_only emptyEnv samplePosts timestampQuery
              sorted after_ H) as [Hperm Hdata].
  exists sorted. split; [|exact Hperm].
  cbn in Hdata. by rewrite Hdata.
Defined.

Lemma split_relevance : split "." "relevance" = ["relevance"].
Proof. reflexivity. Qed.



Lemma post_get2_throw f0 f1 p e : post_get2 f0 f1 p = Throw e → e = TypeError.
Proof.
  unfold post_get2.
  repeat match goal with
         | |- context [if ?b then _ else _] => destruct b
         | |- context [match ?o with Some _ => _ | None => _ end] => destruct o
         end; try congruence.
  destruct (post_get f0 p); congruence.
Qed.

Lemma two_level_comparator_throw (numeric : bool) direction f0 f1 a b e :
  (if numeric then compare_numeric else compare_string) direction f0 f1 a b
  = Throw e →
  e = TypeError.
Proof.
  destruct numeric; unfold compare_numeric, compare_string;
    destruct (post_get2 f0 f1 a) as [va|ea] eqn:Ha;
    destruct (post_get2 f0 f1 b) as [vb|eb] eqn:Hb; simpl;
    intros [= <-]; eauto using post_get2_throw.
Qed.

Lemma two_level_comparator_bad (numeric : bool) direction f0 f1 bad e0 :
  post_get2 f0 f1 bad = Throw e0 →
  (∀ y, ∃ e, (if numeric then compare_numeric else compare_string)
               direction f0 f1 bad y = Throw e)
  ∧ (∀ y, ∃ e, (if numeric then compare_numeric else compare_string)
                 direction f0 f1 y bad = Throw e).
Proof.
  intros Hbad. split; intros y;
    destruct numeric; unfold compare_numeric, compare_string;
    rewrite Hbad; destruct (post_get2 f0 f1 y); simpl; eauto.
Qed.

(** The two-level sort checks the first post only. With two or more
    posts, a first post that has the sort value, and any other post that
    lacks the sub-record (so that reading [post[f0][f1]] fails), the sort
    throws a TypeError. *)
Theorem sortPosts_missing_subrecord_throws (env : Env) (first bad : IPost)
    (rest : list IPost) (data : ISearchData) (sb f0 f1 : string) :
  sortBy data = Some sb →
  split "." sb = [f0; f1] →
  truthy (post_get2_opt f0 f1 first) = true →
  bad ∈ rest →
  post_get2 f0 f1 bad = Throw TypeError →
  sortPosts env (first :: rest) data = Throw TypeError.
Proof.
  intros Hsort Hsplit Hvalid Hin Hbad. unfold sortPosts.
  cbn [nonempty negb orb sortBy set_sortDirection]. rewrite Hsort.
  rewrite bool_decide_eq_false_2.
  2: { intros [= ->]. by rewrite split_relevance in Hsplit. }
  rewrite Hsplit, Hvalid. cbn [negb].
  set (cmp := (if utils_isNumber env _ then compare_numeric else compare_string) _ f0 f1).
  destruct (two_level_comparator_bad
              (utils_isNumber env (post_get2_opt f0 f1 first))
              (if bool_decide (Some (or_str (sortDirection data) "desc") = Some "desc")
               then 1 else -1) f0 f1 bad TypeError Hbad) as [Hl Hr].
  destruct (sort_throws_on cmp bad (first :: rest)) as [e He].
  - by apply list_elem_of_further.
  - destruct rest; [by apply elem_of_nil in Hin | simpl; lia].
  - exact Hl.
  - exact Hr.
  - rewrite He. simpl.
    destruct (sort_throw_source cmp _ _ He) as (a & b & Hab).
    by rewrite (two_level_comparator_throw _ _ _ _ _ _ _ Hab).
Qed.

Lemma sortPosts_missing_subrecord_throws_witness :
  sortPosts emptyEnv
    [authoredPost 2 30 (Some "zoe"); authoredPost 1 10 None;
     authoredPost 3 20 (Some "amy")] usernameQuery
  = Throw TypeError.
Proof.
  apply (sortPosts_missing_subrecord_throws emptyEnv
           (authoredPost 2 30 (Some "zoe")) (authoredPost 1 10 None)
           [authoredPost 1 10 None; authoredPost 3 20 (Some "amy")]
           usernameQuery "user.username" "user" "username").
  - reflexivity.
  - reflexivity.
  - reflexivity.
  - apply list_elem_of_here.
  - reflexivity.
Defined.

(** A single-field sort on a field whose value coerces to [NaN] on every
    post (the field is missing, a plain object, or a string that is no
    numeric literal) compares every pair to [NaN]: the posts come back in
    the order they had, without an error. *)
Theorem sortPosts_unsortable_field_keeps_order (env : Env)
    (posts : list IPost) (data : ISearchData) (sb f : string) :
  posts ≠ [] →
  sortBy data = Some sb →
  sb ≠ "relevance" →
  split "." sb = [f] →
  (∀ p, p ∈ posts → toNumber (post_get f p) = NaN) →
  sortPosts env posts data
  = Ok (posts, set_sortDirection (or_str (sortDirection data) "desc") data).
Proof.
  intros Hne Hsort Hrel Hsplit Hnan. unfold sortPosts.
  destruct posts as [|first rest]; [done|].
  cbn [nonempty negb orb sortBy set_sortDirection]. rewrite Hsort.
  rewrite bool_decide_eq_false_2 by congruence.
  rewrite Hsplit.
  rewrite (sort_sorted_fixed _
             (fun a b : IPost => toNumber (post_get f a) = NaN)).
  - done.
  - generalize (first :: rest), Hnan. clear. intros l Hl.
    induction l as [|x l IH]; constructor.
    + apply IH. intros p Hp. apply Hl. by apply list_elem_of_further.
    + apply Forall_forall. intros y _. apply Hl, list_elem_of_here.
  - intros a b Ha. eexists. split; [reflexivity|].
    unfold js_sub. rewrite Ha. by destruct (toNumber (post_get f b)).
Qed.

Lemma sortPosts_unsortable_field_keeps_order_witness :
  sortPosts emptyEnv samplePosts votesQuery
  = Ok (samplePosts, set_sortDirection "desc" votesQuery).
Proof.
  apply (sortPosts_unsortable_field_keeps_order emptyEnv samplePosts
           votesQuery "votes" "votes").
  - discriminate.
  - reflexivity.
  - discriminate.
  - reflexivity.
  - intros p Hp. vm_compute in Hp.
    repeat (apply elem_of_cons in Hp as [->|Hp]; [reflexivity|]).
    by apply elem_of_nil in Hp.
Defined.

(** Scores that the store holds as strings are sorted as the numbers they
    spell: a decimal point, an exponent and a hexadecimal prefix are
    understood, a word is [NaN]. *)
Example sortPosts_numeric_strings_sample :
  toNumber (VStr "2.5") = Fin (5 # 2)
  ∧ toNumber (VStr "1e3") = Fin (1000 # 1)
  ∧ toNumber (VStr "0x10") = Fin (16 # 1)
  ∧ toNumber (VStr " 12 ") = Fin (12 # 1)
  ∧ toNumber (VStr "votes") = NaN
  ∧ sortPosts emptyEnv [scoredPost 1 "2.5"; scoredPost 2 "10.5"] scoreQuery
    = Ok ([scoredPost 2 "10.5"; scoredPost 1 "2.5"],
          set_sortDirection "desc" scoreQuery).
Proof. repeat split; vm_compute; reflexivity. Qed.

(** The coercion rounds to the nearest double: [0.1] is not one tenth, an
    integer beyond [2^53] loses its last bit, too large a value is
    infinite, and two literals that round to the same double differ by
    zero. *)
Example toNumber_rounding_sample :
  toNumber (VStr "0.1") = Fin (3602879701896397 # 36028797018963968)
  ∧ toNumber (VStr "9007199254740993") = Fin (9007199254740992 # 1)
  ∧ toNumber (VStr "1e400") = Inf false
  ∧ toNumber (VStr "-Infinity") = Inf true
  ∧ toNumber (VStr "1e-400") = Fin 0
  ∧ toNumber (VStr "") = Fin 0
  ∧ toNumber (VStr "12px") = NaN
  ∧ toNumber (VArr []) = Fin 0
  ∧ toNumber VObj = NaN
  ∧ positive (js_sub (VStr "0.10000000000000000001") (VStr "0.1")) = false
  ∧ js_sub (VStr "Infinity") (VStr "1e400") = NaN.
Proof. repeat split; vm_compute; reflexivity. Qed.

(** ** Thresholds that are not numbers *)

Lemma filter_none {A} (f : A -> bool) (l : list A) :
  (∀ x, x ∈ l → f x = false) → List.filter f l = [].
Proof.
  induction l as [|x l IH]; intros H; [done|]. simpl.
  rewrite (H x) by apply list_elem_of_here.
  apply IH. intros y Hy. apply H. by apply list_elem_of_further.
Qed.

Lemma filter_throwing_none {A} (f : A -> result bool) (l : list A) :
  (∀ x, x ∈ l → f x = Ok false) → filter_throwing f l = Ok [].
Proof.
  induction l as [|x l IH]; intros H; [done|]. simpl.
  rewrite (H x) by apply list_elem_of_here. simpl.
  rewrite IH; [done|]. intros y Hy. apply H. by apply list_elem_of_further.
Qed.

(** A reply count or a time range that is given but does not start with
    a number parses to [NaN]; every comparison with it fails, so the
    filter drops every post instead of being skipped. (The reply filter
    reads the topic of each post, which the stage has attached.) *)
Theorem nan_threshold_drops_every_post (now : Z) (posts : list IPost)
    (v repliesFilter timeFilter : option string) :
  truthy_str v = true →
  parseInt_opt v = None →
  (∀ p : IPost, p ∈ posts → is_Some (topic p)) →
  filterByPostcount posts v repliesFilter = Ok []
  ∧ filterByTimerange now posts v timeFilter = [].
Proof.
  intros Htruthy Hnan Htopic. split.
  - unfold filterByPostcount. rewrite Htruthy, Hnan.
    destruct (bool_decide _); apply filter_throwing_none; intros p Hp;
      unfold topic_postcount; destruct (Htopic p Hp) as [t ->]; done.
  - unfold filterByTimerange. rewrite Htruthy, Hnan.
    destruct (bool_decide _); by apply filter_none.
Qed.

Lemma nan_threshold_drops_every_post_witness :
  filterByPostcount samplePosts (Some "many") (Some "atleast") = Ok []
  ∧ filterByTimerange 100000 samplePosts (Some "many") (Some "newer") = [].
Proof.
  apply (nan_threshold_drops_every_post 100000 samplePosts (Some "many")
           (Some "atleast") (Some "newer")).
  - reflexivity.
  - reflexivity.
  - intros p Hp. vm_compute in Hp.
    repeat (apply elem_of_cons in Hp as [->|Hp]; [by eexists|]).
    by apply elem_of_nil in Hp.
Defined.

(** ** The pages of a result *)

Lemma concat_chunks {A} (s n : nat) (l : list A) :
  concat ((fun k => take s (drop (k * s) l)) <$> seq 0 n) = take (n * s) l.
Proof.
  induction n as [|n IH]; [done|].
  rewrite seq_S, fmap_app, concat_app, IH. cbn [fmap list_fmap concat Nat.add].
  rewrite app_nil_r, take_take_drop. f_equal. lia.
Qed.

Lemma computePageCount_holds_all (n size : Z) :
  1 <= size → 0 <= n →
  1 <= computePageCount n size ∧ n <= computePageCount n size * size.
Proof.
  intros Hsize Hn. unfold computePageCount.
  pose proof (ceil_div_least n size Hsize). split; [lia|nia].
Qed.

(** For a positive page size, the pages [1 .. pageCount] taken one after
    the other are the final id list, each id once and in order; a page
    beyond [pageCount] is empty. *)
Theorem pages_cover_the_matches (data : ISearchData) (pids : list jsid) :
  let size := effectiveItemsPerPage data in
  let pageCount := computePageCount (Z.of_nat (length pids)) size in
  1 <= size →
  concat ((fun p => pageSlice (at_page p data) size pids)
            <$> seqZ 1 pageCount) = pids
  ∧ ∀ p, pageCount < p → pageSlice (at_page p data) size pids = [].
Proof.
  intros size pageCount Hsize.
  destruct (computePageCount_holds_all (Z.of_nat (length pids)) size)
    as [Hcount Hall]; [done|lia|]. fold pageCount in Hcount, Hall.
  assert (Hpage : ∀ p, 1 <= p →
            pageSlice (at_page p data) size pids
            = take (Z.to_nat size)
                   (drop (Z.to_nat (p - 1) * Z.to_nat size) pids)).
  { intros p Hp. rewrite (pageSlice_page _ _ _ p); [|done|done|lia].
    by rewrite Z2Nat.inj_mul by lia. }
  split.
  - transitivity (concat ((fun k => take (Z.to_nat size)
                                      (drop (k * Z.to_nat size) pids))
                            <$> seq 0 (Z.to_nat pageCount))).
    + f_equal. unfold seqZ. rewrite <- list_fmap_compose.
      apply list_fmap_ext. intros i k Hk. simpl.
      apply lookup_seq in Hk as [-> Hk]. rewrite Hpage by lia.
      do 3 f_equal. lia.
    + rewrite concat_chunks. apply take_ge.
      rewrite <- Z2Nat.inj_mul by lia. lia.
  - intros p Hp. rewrite Hpage by lia.
    rewrite drop_ge; [apply take_nil|].
    rewrite <- Z2Nat.inj_mul by lia. nia.
Qed.

Lemma pages_cover_the_matches_witness :
  concat ((fun p => pageSlice (at_page p (set_page None (Some 2) emptyQuery))
                      2 (idRange 1 5))
            <$> seqZ 1 3) = idRange 1 5
  ∧ ∀ p, 3 < p →
      pageSlice (at_page p (set_page None (Some 2) emptyQuery)) 2 (idRange 1 5)
      = [].
Proof.
  apply (pages_cover_the_matches (set_page None (Some 2) emptyQuery)
           (idRange 1 5)).
  vm_compute. discriminate.
Defined.

End PipelineFacts.
